(** * wrangle.py: cleaning of OpenStreetMap elements

    A shallow embedding of [src/wrangle.py] and the properties of its
    field normalisers ([update_city_name], [update_street_name],
    [update_postcode]), of the record extractors ([extract_node],
    [extract_way], [extract_element]) and of the driver loop
    ([process_map]).

    Modelling choices.
    - A Python [str] is a [list ascii]; a character is a code point below
      256.  The character classes of [re] ([\s], [\S], [\d], [\w], [\b])
      and of [str.split] follow Python 3 on that range.  Case mapping
      ([str.capitalize]) covers the letters whose other case is below 256
      (all but U+00B5, U+00DF and U+00FF, which are left as they are).
    - A compiled pattern is a value of [regex]; [rmatch] is the
      backtracking matcher of [re] (leftmost start, greedy quantifiers,
      first success in priority order), [re_search] is [Pattern.search]
      and [re_sub] is [Pattern.sub].
    - A [dict] with string keys is a [gmap]; [d[k]] on a missing key
      raises [KeyError], which is the [KeyError] result below.
    - An XML element is a tree of [Element]s; [Element.iter] walks the
      element and everything below it in document order. *)

From Stdlib Require Import List Ascii String Bool Arith Lia.
From stdpp Require Import gmap strings list fin_maps.
Import ListNotations.

Set Warnings "-register-all".

Local Open Scope list_scope.

(** ** Strings and characters *)

Abbreviation pystr := (list ascii).

Definition str (s : string) : pystr := list_ascii_of_string s.

Definition code (c : ascii) : nat := nat_of_ascii c.

Definition between (lo hi : nat) (c : ascii) : bool :=
  (lo <=? code c) && (code c <=? hi).

Definition LF : ascii := ascii_of_nat 10.
Definition TAB : ascii := ascii_of_nat 9.
Definition CR : ascii := ascii_of_nat 13.
Definition DQUOTE : ascii := ascii_of_nat 34.

Definition ascii_eqb (a b : ascii) : bool := Ascii.eqb a b.

(** [str.isspace] on one character, which is also [\s] of a str pattern:
    TAB, LF, VT, FF, CR, the separators 0x1c-0x1f, the space, NEL (0x85)
    and the no-break space (0xa0). *)
Definition is_space (c : ascii) : bool :=
  between 9 13 c || between 28 32 c || (code c =? 133) || (code c =? 160).

(** [\d] of a str pattern: the decimal digits; below 256 these are 0-9. *)
Definition is_digit (c : ascii) : bool := between 48 57 c.

(** [\w] of a str pattern: alphanumeric characters and the underscore.
    Below 256 the alphanumerics are the ASCII letters and digits and the
    Latin-1 letters and numerics. *)
Definition is_word (c : ascii) : bool :=
  between 48 57 c || between 65 90 c || (code c =? 95) || between 97 122 c
  || (code c =? 170) || between 178 179 c || (code c =? 181)
  || between 185 186 c || between 188 190 c
  || between 192 214 c || between 216 246 c || between 248 255 c.

(** [str.upper] and [str.lower] on one character: the ASCII letters and
    the Latin-1 letters whose other case is below 256. *)
Definition is_upper (c : ascii) : bool :=
  between 65 90 c || between 192 214 c || between 216 222 c.
Definition is_lower (c : ascii) : bool :=
  between 97 122 c || between 224 246 c || between 248 254 c.

Definition upper (c : ascii) : ascii :=
  if is_lower c then ascii_of_nat (code c - 32) else c.
Definition lower (c : ascii) : ascii :=
  if is_upper c then ascii_of_nat (code c + 32) else c.

Definition mem (c : ascii) (chars : pystr) : bool :=
  existsb (ascii_eqb c) chars.

Definition pystr_eqb (a b : pystr) : bool :=
  bool_decide (a = b).

(** [a.startswith(b)] *)
Fixpoint starts_with (b a : pystr) : bool :=
  match b, a with
  | [], _ => true
  | x :: b', y :: a' => ascii_eqb x y && starts_with b' a'
  | _ :: _, [] => false
  end.

(** [sub in s] on strings *)
Fixpoint contains (sub s : pystr) : bool :=
  starts_with sub s ||
  match s with
  | [] => false
  | _ :: s' => contains sub s'
  end.

Fixpoint drop_while (p : ascii -> bool) (s : pystr) : pystr :=
  match s with
  | [] => []
  | c :: s' => if p c then drop_while p s' else s
  end.

(** [s.rstrip(chars)]: the end index moves left while the character
    before it belongs to [chars]. *)
Definition rstrip (chars s : pystr) : pystr :=
  rev (drop_while (fun c => mem c chars) (rev s)).

(** [s.split()]: the words of [s], separated by runs of whitespace. *)
Fixpoint split_ws_aux (cur : pystr) (s : pystr) : list pystr :=
  match s with
  | [] => match cur with [] => [] | _ => [rev cur] end
  | c :: s' =>
      if is_space c
      then match cur with
           | [] => split_ws_aux [] s'
           | _ => rev cur :: split_ws_aux [] s'
           end
      else split_ws_aux (c :: cur) s'
  end.

Definition split_ws (s : pystr) : list pystr := split_ws_aux [] s.

(** [sep.join(words)] *)
Fixpoint join (sep : pystr) (words : list pystr) : pystr :=
  match words with
  | [] => []
  | [w] => w
  | w :: ws => w ++ sep ++ join sep ws
  end.

(** [w.capitalize()] *)
Definition capitalize (w : pystr) : pystr :=
  match w with
  | [] => []
  | c :: w' => upper c :: map lower w'
  end.

(** [string.capwords(s)] with the default separator. *)
Definition capwords (s : pystr) : pystr :=
  join (str " ") (map capitalize (split_ws s)).

(** [s.split(sep, 1)] for a one-character separator. *)
Fixpoint split1 (sep : ascii) (s : pystr) : list pystr :=
  match s with
  | [] => [[]]
  | c :: s' =>
      if ascii_eqb c sep then [[]; s']
      else match split1 sep s' with
           | h :: t => (c :: h) :: t
           | [] => [[c]]
           end
  end.

(** ** Python values that are tested for truth *)

Inductive pyval : Type :=
| PyBool (b : bool)
| PyStr (s : pystr).

Definition truthy (v : pyval) : bool :=
  match v with
  | PyBool b => b
  | PyStr s => negb (pystr_eqb s [])
  end.

(** [a or b] is [a] when [a] is true and [b] otherwise. *)
Definition py_or (a b : pyval) : pyval := if truthy a then a else b.

(** ** Regular expressions *)

Inductive regex : Type :=
| Eps
| Bol                                   (* ^ *)
| Eol                                   (* $ *)
| WordB                                 (* \b *)
| Cls (p : ascii -> bool)               (* one character of a class *)
| Seq (r1 r2 : regex)
| Opt (r : regex)                       (* r?  greedy *)
| PlusCls (p : ascii -> bool).          (* [class]+  greedy *)

Fixpoint times (n : nat) (r : regex) : regex :=
  match n with
  | 0 => Eps
  | S n' => Seq r (times n' r)
  end.

(** [$] without MULTILINE: the end of the string, or just before a line
    feed that ends the string. *)
Definition at_eol (rest : pystr) : bool :=
  match rest with
  | [] => true
  | [c] => ascii_eqb c LF
  | _ => false
  end.

Definition word_before (prev : option ascii) : bool :=
  match prev with Some c => is_word c | None => false end.

Definition word_after (rest : pystr) : bool :=
  match rest with c :: _ => is_word c | [] => false end.

(** Greedy [class*]: take as many characters as possible, give them back
    one at a time while the continuation fails. *)
Fixpoint star_cls {R} (p : ascii -> bool) (prev : option ascii) (rest : pystr)
    (k : option ascii -> pystr -> option R) : option R :=
  match rest with
  | c :: rest' =>
      if p c
      then match star_cls p (Some c) rest' k with
           | Some x => Some x
           | None => k prev rest
           end
      else k prev rest
  | [] => k prev rest
  end.

(** [rmatch r prev rest k]: match [r] at a position whose previous
    character is [prev] and whose remaining text is [rest], then continue
    with [k]. *)
Fixpoint rmatch {R} (r : regex) (prev : option ascii) (rest : pystr)
    (k : option ascii -> pystr -> option R) : option R :=
  match r with
  | Eps => k prev rest
  | Bol => match prev with None => k prev rest | Some _ => None end
  | Eol => if at_eol rest then k prev rest else None
  | WordB => if xorb (word_before prev) (word_after rest) then k prev rest else None
  | Cls p =>
      match rest with
      | c :: rest' => if p c then k (Some c) rest' else None
      | [] => None
      end
  | Seq r1 r2 => rmatch r1 prev rest (fun p' s' => rmatch r2 p' s' k)
  | Opt r1 =>
      match rmatch r1 prev rest k with
      | Some x => Some x
      | None => k prev rest
      end
  | PlusCls p =>
      match rest with
      | c :: rest' => if p c then star_cls p (Some c) rest' k else None
      | [] => None
      end
  end.

(** The end of a match: with [must_advance] an empty match is refused. *)
Definition accept (must_advance : bool) (rest0 : pystr)
    (_ : option ascii) (rest : pystr) : option pystr :=
  if must_advance && (length rest =? length rest0) then None else Some rest.

Definition match_here (r : regex) (prev : option ascii) (rest : pystr)
    (must_advance : bool) : option pystr :=
  rmatch r prev rest (accept must_advance rest).

(** A match object: the text before the match, [m.group()], and the text
    after the match. *)
Record Match : Type := MkMatch {
  m_before : pystr;
  m_group : pystr;
  m_after : pystr
}.

(** The scan of [Pattern.search]: the first start position, from left to
    right, at which the pattern matches. *)
Fixpoint search_from (r : regex) (prev : option ascii) (skipped : pystr)
    (rest : pystr) (must_advance : bool) : option Match :=
  match match_here r prev rest must_advance with
  | Some rest' =>
      Some (MkMatch (rev skipped) (take (length rest - length rest') rest) rest')
  | None =>
      match rest with
      | [] => None
      | c :: rest1 => search_from r (Some c) (c :: skipped) rest1 false
      end
  end.

Definition re_search (r : regex) (s : pystr) : option Match :=
  search_from r None [] s false.

Definition last_char (prev : option ascii) (s : pystr) : option ascii :=
  match rev s with
  | c :: _ => Some c
  | [] => prev
  end.

(** The loop of [Pattern.sub]: replace every non-overlapping match, from
    left to right; after an empty match the next one has to advance. *)
Fixpoint sub_loop (fuel : nat) (r : regex) (repl : pystr)
    (prev : option ascii) (rest : pystr) (must_advance : bool) : pystr :=
  match fuel with
  | 0 => rest
  | S fuel' =>
      match search_from r prev [] rest must_advance with
      | None => rest
      | Some m =>
          m_before m ++ repl ++
          sub_loop fuel' r repl
            (last_char prev (m_before m ++ m_group m))
            (m_after m)
            (pystr_eqb (m_group m) [])
      end
  end.

(** [r.sub(repl, s)] for a replacement text without backslash (every
    value of [mapping] is one). *)
Definition re_sub (r : regex) (repl s : pystr) : pystr :=
  sub_loop (2 * length s + 2) r repl None s false.

(** ** The patterns of the module *)

(** [PROBLEMCHARS]: one character of the class
    = + / & < > ; ' double-quote ? % # $ @ , . space TAB CR LF *)
Definition problem_set : pystr :=
  str "=+/&<>;'" ++ [DQUOTE] ++ str "?%#$@,. " ++ [TAB; CR; LF].

Definition PROBLEMCHARS : regex := Cls (fun c => mem c problem_set).

(** [street_type_re = re.compile(r'\b\S+\.?$', re.IGNORECASE)]; the
    pattern has no letter, so that IGNORECASE changes nothing. *)
Definition not_space (c : ascii) : bool := negb (is_space c).
Definition is_dot (c : ascii) : bool := ascii_eqb c "."%char.

Definition street_type_re : regex :=
  Seq WordB (Seq (PlusCls not_space) (Seq (Opt (Cls is_dot)) Eol)).

(** [postcode_format_re = re.compile(r'^\d{5}(?:[-\s]\d{4})?$')] *)
Definition hyphen_or_space (c : ascii) : bool :=
  ascii_eqb c "-"%char || is_space c.

Definition postcode_format_re : regex :=
  Seq Bol
    (Seq (times 5 (Cls is_digit))
       (Seq (Opt (Seq (Cls hyphen_or_space) (times 4 (Cls is_digit)))) Eol)).

(** ** Field normalisers *)

(** [update_city_name]: the test [', WA' or ',WA' in name] is the
    disjunction of a string constant and a membership test. *)
Definition update_city_name (name : pystr) : pystr :=
  let name :=
    if truthy (py_or (PyStr (str ", WA")) (PyBool (contains (str ",WA") name)))
    then rstrip (str ", WA") name
    else name in
  capwords name.

(** The dictionary literal [mapping], in the order it is written. *)
Definition mapping : list (pystr * pystr) :=
  [ (str "St", str "Street");
    (str "St.", str "Street");
    (str "Rd.", str "Road");
    (str "Ave", str "Avenue");
    (str "NE", str "Northeast");
    (str "NW", str "Northwest");
    (str "SE", str "Southeast");
    (str "SW", str "Southwest");
    (str "WY", str "Way");
    (str "Ln", str "Lane");
    (str "ln", str "Lane") ].

(** [list(mapping.keys())] and [mapping[key]] *)
Definition keys (mapping : list (pystr * pystr)) : list pystr :=
  map fst mapping.

Fixpoint lookup_key (key : pystr) (mapping : list (pystr * pystr)) : option pystr :=
  match mapping with
  | [] => None
  | (k, v) :: rest => if pystr_eqb key k then Some v else lookup_key key rest
  end.

Definition in_list (x : pystr) (l : list pystr) : bool :=
  existsb (pystr_eqb x) l.

(** [update_street_name]: a match object is true; [mapping[street_type]]
    is read when [street_type] is a key, so that it cannot fail. *)
Definition update_street_name (name : pystr) (mapping : list (pystr * pystr)) : pystr :=
  match re_search street_type_re name with
  | Some m =>
      let street_type := m_group m in
      if in_list street_type (keys mapping)
      then match lookup_key street_type mapping with
           | Some better_street_type => re_sub street_type_re better_street_type name
           | None => name
           end
      else name
  | None => name
  end.

(** [update_postcode(postcode)] with the default [invalid = True]. *)
Definition update_postcode (postcode : pystr) : bool * pystr :=
  match re_search postcode_format_re postcode with
  | Some _ => (false, take 5 postcode)
  | None => (true, postcode)
  end.

(** ** Errors *)

Inductive error : Type :=
| KeyError (key : pystr)
| IndexError
| ValueError
| StopIteration
| ValidationError.

Inductive result (A : Type) : Type :=
| Ok (a : A)
| Raise (e : error).

Arguments Ok {A} a.
Arguments Raise {A} e.

Definition bind {A B} (x : result A) (f : A -> result B) : result B :=
  match x with
  | Ok a => f a
  | Raise e => Raise e
  end.

Notation "'let*' x ':=' c1 'in' c2" := (bind c1 (fun x => c2))
  (at level 10, x name, c1 at level 100, c2 at level 200).

(** [d[key]] *)
Definition getitem (d : gmap pystr pystr) (key : pystr) : result pystr :=
  match d !! key with
  | Some v => Ok v
  | None => Raise (KeyError key)
  end.

(** [l[i]] *)
Definition index {A} (l : list A) (i : nat) : result A :=
  match nth_error l i with
  | Some x => Ok x
  | None => Raise IndexError
  end.

(** ** Elements *)

Inductive Element : Type :=
  MkElement (tag : pystr) (attrib : gmap pystr pystr) (children : list Element).

Definition tag (e : Element) : pystr :=
  match e with MkElement t _ _ => t end.
Definition attrib (e : Element) : gmap pystr pystr :=
  match e with MkElement _ a _ => a end.
Definition children (e : Element) : list Element :=
  match e with MkElement _ _ c => c end.

(** [element.iter()]: the element, then everything below it, in document
    order. *)
Fixpoint iter_all (e : Element) : list Element :=
  match e with
  | MkElement _ _ cs => e :: flat_map iter_all cs
  end.

(** [element.iter(name)] *)
Definition iter (name : pystr) (e : Element) : list Element :=
  filter (fun x => tag x = name) (iter_all e).

(** ** Records *)

Definition NODE_FIELDS : list pystr :=
  [str "id"; str "lat"; str "lon"; str "user"; str "uid"; str "version";
   str "changeset"; str "timestamp"].
Definition NODE_TAGS_FIELDS : list pystr :=
  [str "id"; str "key"; str "value"; str "type"].
Definition WAY_FIELDS : list pystr :=
  [str "id"; str "user"; str "uid"; str "version"; str "changeset";
   str "timestamp"].
Definition WAY_TAGS_FIELDS : list pystr :=
  [str "id"; str "key"; str "value"; str "type"].
Definition WAY_NODES_FIELDS : list pystr :=
  [str "id"; str "node_id"; str "position"].

(** The dictionary [node_tag] / [way_tag] of one tag child. *)
Record TagRecord : Type := MkTag {
  tag_id : pystr;
  tag_key : pystr;
  tag_value : pystr;
  tag_type : pystr
}.

(** The dictionary [nd_tags] of one nd child. *)
Record WayNode : Type := MkWayNode {
  wn_id : pystr;
  wn_node_id : pystr;
  wn_position : nat
}.

Record NodeResult : Type := MkNodeResult {
  node : gmap pystr pystr;
  node_tags : list TagRecord
}.

Record WayResult : Type := MkWayResult {
  way : gmap pystr pystr;
  way_nodes : list WayNode;
  way_tags : list TagRecord
}.

(** ** The extractors *)

(** [for key in fields: attribs[key] = element.attrib[key]] *)
Fixpoint copy_fields (element : Element) (fields : list pystr)
    (attribs : gmap pystr pystr) : result (gmap pystr pystr) :=
  match fields with
  | [] => Ok attribs
  | key :: fields' =>
      let* v := getitem (attrib element) key in
      copy_fields element fields' (<[key := v]> attribs)
  end.

(** The body of the loop over the tag children, which [extract_node] and
    [extract_way] have in the same words.  [None] is [continue]. *)
Definition shape_tag (attribs : gmap pystr pystr) (problem_chars : regex)
    (default_tag_type : pystr) (t : Element) : result (option TagRecord) :=
  let* id := getitem attribs (str "id") in
  let* value := getitem (attrib t) (str "v") in
  let* k := getitem (attrib t) (str "k") in
  match re_search problem_chars k with
  | Some _ => Ok None
  | None =>
      let* key_type :=
        (if contains (str ":") k
         then
           let* key := index (split1 ":"%char k) 1 in
           let* type := index (split1 ":"%char k) 0 in
           Ok (key, type)
         else Ok (k, default_tag_type)) in
      let key := fst key_type in
      let type := snd key_type in
      let value :=
        if pystr_eqb key (str "city") then update_city_name value else value in
      let value :=
        if truthy (py_or (PyBool (pystr_eqb key (str "street")))
                         (PyStr (str "street:name")))
        then update_street_name value mapping
        else value in
      let value :=
        if pystr_eqb key (str "postcode")
        then
          let (invalid, value) := update_postcode value in
          if invalid then str "fixme:" ++ value else value
        else value in
      Ok (Some (MkTag id key value type))
  end.

(** [for tag in element.iter("tag"): ... tags.append(node_tag)] *)
Fixpoint tag_loop (attribs : gmap pystr pystr) (problem_chars : regex)
    (default_tag_type : pystr) (ts : list Element) (tags : list TagRecord)
    : result (list TagRecord) :=
  match ts with
  | [] => Ok tags
  | t :: ts' =>
      let* r := shape_tag attribs problem_chars default_tag_type t in
      tag_loop attribs problem_chars default_tag_type ts'
        (match r with Some x => tags ++ [x] | None => tags end)
  end.

(** [for counter, nd in enumerate(element.iter("nd")): ...] *)
Fixpoint nd_loop (attribs : gmap pystr pystr) (nds : list Element)
    (counter : nat) (nodes : list WayNode) : result (list WayNode) :=
  match nds with
  | [] => Ok nodes
  | nd :: nds' =>
      let* id := getitem attribs (str "id") in
      let* ref := getitem (attrib nd) (str "ref") in
      nd_loop attribs nds' (S counter) (nodes ++ [MkWayNode id ref counter])
  end.

Definition extract_node (element : Element) (node_attr_fields : list pystr)
    (problem_chars : regex) (default_tag_type : pystr) : result NodeResult :=
  let* attribs := copy_fields element node_attr_fields ∅ in
  let* tags := tag_loop attribs problem_chars default_tag_type
                 (iter (str "tag") element) [] in
  Ok (MkNodeResult attribs tags).

(** [extract_way] searches the module's [PROBLEMCHARS], not its
    [problem_chars] argument. *)
Definition extract_way (element : Element) (way_attr_fields : list pystr)
    (problem_chars : regex) (default_tag_type : pystr) : result WayResult :=
  let* attribs := copy_fields element way_attr_fields ∅ in
  let* tags := tag_loop attribs PROBLEMCHARS default_tag_type
                 (iter (str "tag") element) [] in
  let* nodes := nd_loop attribs (iter (str "nd") element) 0 [] in
  Ok (MkWayResult attribs nodes tags).

(** What [extract_element] returns for a node or for a way. *)
Inductive Shaped : Type :=
| ShapedNode (r : NodeResult)
| ShapedWay (r : WayResult).

(** [extract_element]: falling off the end returns [None]. *)
Definition extract_element (element : Element) (default_tag_type : pystr)
    : result (option Shaped) :=
  if pystr_eqb (tag element) (str "node")
  then let* r := extract_node element NODE_FIELDS PROBLEMCHARS default_tag_type in
       Ok (Some (ShapedNode r))
  else if pystr_eqb (tag element) (str "way")
  then let* r := extract_way element WAY_FIELDS PROBLEMCHARS default_tag_type in
       Ok (Some (ShapedWay r))
  else Ok None.

(** ** The driver *)

(** [iterparse] is the parser's: its events are taken as they come. *)
Inductive event : Type := EvStart | EvEnd.

Definition is_end (ev : event) : bool :=
  match ev with EvEnd => true | EvStart => false end.

(** [get_element]: the first event gives the root; of the others, the
    elements whose end is reported and whose tag is in [tags].
    ([root.clear()] after each of them releases what the root holds; the
    elements are values here.) *)
Definition get_element (context : list (event * Element)) (tags : list pystr)
    : result (list Element) :=
  match context with
  | [] => Raise StopIteration
  | _ :: rest =>
      Ok (map snd
            (List.filter (fun ev => is_end (fst ev) && in_list (tag (snd ev)) tags)
               rest))
  end.

(** A value written to a csv file: a string, or the integer [position]. *)
Inductive cell : Type :=
| CStr (s : pystr)
| CInt (n : nat).

Abbreviation row := (list cell).

(** [DictWriter.writerow] of a dictionary: a key outside the field names
    raises [ValueError]; a missing field is written as the empty string. *)
Definition writerow_dict (fieldnames : list pystr) (d : gmap pystr pystr)
    : result row :=
  if bool_decide (dom d ⊆ list_to_set fieldnames)
  then Ok (map (fun f => CStr (default [] (d !! f))) fieldnames)
  else Raise ValueError.

(** The rows of a tag dictionary and of an nd dictionary, in the order of
    [NODE_TAGS_FIELDS] / [WAY_TAGS_FIELDS] and of [WAY_NODES_FIELDS]. *)
Definition row_of_tag (x : TagRecord) : row :=
  [CStr (tag_id x); CStr (tag_key x); CStr (tag_value x); CStr (tag_type x)].

Definition row_of_way_node (x : WayNode) : row :=
  [CStr (wn_id x); CStr (wn_node_id x); CInt (wn_position x)].

(** The five csv files, as the rows written so far. *)
Record Tables : Type := MkTables {
  nodes_file : list row;
  nodes_tags_file : list row;
  ways_file : list row;
  way_nodes_file : list row;
  way_tags_file : list row
}.

Definition header (fieldnames : list pystr) : row := map CStr fieldnames.

(** The files after the five [writeheader]. *)
Definition headers : Tables :=
  MkTables [header NODE_FIELDS] [header NODE_TAGS_FIELDS] [header WAY_FIELDS]
           [header WAY_NODES_FIELDS] [header WAY_TAGS_FIELDS].

Section Driver.

(** [validator.validate(element, schema) is True]: cerberus and the
    schema are not part of this module. *)
Variable validator_validate : Shaped -> bool.

Definition validate_element (el : Shaped) : result unit :=
  if validator_validate el then Ok tt else Raise ValidationError.

(** The body of the loop of [process_map]. *)
Definition process_element (validate : bool) (t : Tables) (element : Element)
    : result Tables :=
  let* el := extract_element element (str "regular") in
  match el with
  | None => Ok t
  | Some sh =>
      let* _ := (if validate then validate_element sh else Ok tt) in
      if pystr_eqb (tag element) (str "node")
      then
        match sh with
        | ShapedNode r =>
            let* nrow := writerow_dict NODE_FIELDS (node r) in
            Ok (MkTables (nodes_file t ++ [nrow])
                  (nodes_tags_file t ++ map row_of_tag (node_tags r))
                  (ways_file t) (way_nodes_file t) (way_tags_file t))
        | ShapedWay _ => Raise (KeyError (str "node"))
        end
      else if pystr_eqb (tag element) (str "way")
      then
        match sh with
        | ShapedWay r =>
            let* wrow := writerow_dict WAY_FIELDS (way r) in
            Ok (MkTables (nodes_file t) (nodes_tags_file t)
                  (ways_file t ++ [wrow])
                  (way_nodes_file t ++ map row_of_way_node (way_nodes r))
                  (way_tags_file t ++ map row_of_tag (way_tags r)))
        | ShapedNode _ => Raise (KeyError (str "way"))
        end
      else Ok t
  end.

(** The loop: the files as they are when it ends, and the error that
    ended it, if any. *)
Fixpoint process_loop (validate : bool) (t : Tables) (elements : list Element)
    : Tables * option error :=
  match elements with
  | [] => (t, None)
  | element :: rest =>
      match process_element validate t element with
      | Ok t' => process_loop validate t' rest
      | Raise e => (t, Some e)
      end
  end.

Definition process_map (file_in : list (event * Element)) (validate : bool)
    : Tables * option error :=
  match get_element file_in [str "node"; str "way"] with
  | Ok elements => process_loop validate headers elements
  | Raise e => (headers, Some e)
  end.

End Driver.

(** * Vocabulary of the statements and of the proofs *)

(** ** Postcodes *)

(** Five digits, four digits. *)
Definition five_digits (s : pystr) : bool :=
  (length s =? 5) && forallb is_digit s.

Definition four_digits (s : pystr) : bool :=
  (length s =? 4) && forallb is_digit s.

(** The formats of the specification: five digits, or five digits, one
    hyphen or one space, and four digits. *)
Definition claimed_format (s : pystr) : bool :=
  five_digits s
  || (five_digits (take 5 s)
      && match drop 5 s with
         | sep :: ext =>
             (ascii_eqb sep "-"%char || ascii_eqb sep " "%char) && four_digits ext
         | [] => false
         end).

(** The formats of the pattern: the separator is a hyphen or any
    whitespace character, *)
Definition zip_format (s : pystr) : bool :=
  five_digits s
  || (five_digits (take 5 s)
      && match drop 5 s with
         | sep :: ext =>
             (ascii_eqb sep "-"%char || is_space sep) && four_digits ext
         | [] => false
         end).

(** and one line feed may follow. *)
Definition postcode_format (s : pystr) : bool :=
  zip_format s
  || match rev s with
     | c :: r => ascii_eqb c LF && zip_format (rev r)
     | [] => false
     end.

(** Whether a search found a match. *)
Definition is_some {A} (o : option A) : bool :=
  match o with Some _ => true | None => false end.

(** ** City names *)


(** [words_of s ws]: [ws] are the maximal runs of characters of [s] that
    are not whitespace, from left to right. *)
Inductive words_of : pystr -> list pystr -> Prop :=
| words_nil : words_of [] []
| words_space c s ws :
    is_space c = true -> words_of s ws -> words_of (c :: s) ws
| words_last w :
    w <> [] -> Forall (fun c => is_space c = false) w -> words_of w [w]
| words_word w c s ws :
    w <> [] -> Forall (fun c => is_space c = false) w ->
    is_space c = true -> words_of s ws -> words_of (w ++ c :: s) (w :: ws).

(** ** Street names *)

(** Where a run of characters that are not whitespace, starting at [l],
    ends: the text after it, when that text is at the end of the line. *)
Fixpoint run_end (l : pystr) : option pystr :=
  match l with
  | [] => Some []
  | c :: l' =>
      if is_space c then (if at_eol l then Some l else None) else run_end l'
  end.

(** What follows [\S+] in [street_type_re], before the continuation [f]. *)
Definition tail_k {R : Type} (f : pystr -> option R)
    : option ascii -> pystr -> option R :=
  fun p x => rmatch (Seq (Opt (Cls is_dot)) Eol) p x (fun _ y => f y).

(** A match of [street_type_re] at one position. *)
Definition street_here (prev : option ascii) (l : pystr) : option pystr :=
  if xorb (word_before prev) (word_after l)
  then match l with
       | c :: l' => if is_space c then None else run_end l'
       | [] => None
       end
  else None.

(** [street_type_at name pre g post]: [name] is [pre ++ g ++ post], where
    [post] is empty or one line feed, [g] has no whitespace and starts
    with a word character, and no word character stands between the last
    whitespace of [pre] and [g]. *)
Definition street_type_at (name pre g post : pystr) : Prop :=
  name = pre ++ g ++ post
  /\ (post = [] \/ post = [LF])
  /\ (exists c g', g = c :: g' /\ is_word c = true)
  /\ Forall (fun c => is_space c = false) g
  /\ exists p0 junk,
       pre = p0 ++ junk
       /\ (p0 = [] \/ exists p c, p0 = p ++ [c] /\ is_space c = true)
       /\ Forall (fun c => is_space c = false /\ is_word c = false) junk.

(** The skipped text, last character first, when no word character has
    been met since the last whitespace. *)
Definition fresh (sk : pystr) : Prop :=
  exists p0 junk,
    rev sk = p0 ++ junk
    /\ (p0 = [] \/ exists p c, p0 = p ++ [c] /\ is_space c = true)
    /\ Forall (fun c => is_space c = false /\ is_word c = false) junk.

(** The characters of [l] before its first whitespace character. *)
Fixpoint leading_run (l : pystr) : pystr :=
  match l with
  | [] => []
  | c :: l' => if is_space c then [] else c :: leading_run l'
  end.

(** The last whitespace-delimited token of a name, as the specification
    has it: the characters after the last whitespace character. *)
Definition final_token (name : pystr) : pystr :=
  rev (leading_run (rev name)).

(** ** Elements of an OSM document *)

(** In an OSM document the children of a node or of a way ([tag], [nd])
    have no children of their own. *)
Definition leaf (e : Element) : Prop := children e = [].

(** The tag children and the nd children of an element, in document
    order. *)
Definition tag_children (e : Element) : list Element :=
  filter (fun x => tag x = str "tag") (children e).

Definition nd_children (e : Element) : list Element :=
  filter (fun x => tag x = str "nd") (children e).

(** The element has every attribute of [fields]. *)
Definition has_attrs (fields : list pystr) (e : Element) : Prop :=
  Forall (fun f => is_Some (attrib e !! f)) fields.

(** A node, and a way, of an OSM document: the attributes of the field
    list, leaves as children, [k] and [v] on the tag children, [ref] on
    the nd children. *)
Definition well_formed_node (e : Element) : Prop :=
  tag e = str "node"
  /\ has_attrs NODE_FIELDS e
  /\ Forall leaf (children e)
  /\ Forall (has_attrs [str "k"; str "v"]) (tag_children e).

Definition well_formed_way (e : Element) : Prop :=
  tag e = str "way"
  /\ has_attrs WAY_FIELDS e
  /\ Forall leaf (children e)
  /\ Forall (has_attrs [str "k"; str "v"]) (tag_children e)
  /\ Forall (has_attrs [str "ref"]) (nd_children e).

(** The attributes of a child, the empty string standing for a missing
    one. *)
Definition attr (name : pystr) (e : Element) : pystr :=
  default [] (attrib e !! name).

Definition raw_key (t : Element) : pystr := attr (str "k") t.
Definition raw_value (t : Element) : pystr := attr (str "v") t.

(** A raw key with a character of the forbidden set. *)
Definition has_problem_char (k : pystr) : bool :=
  existsb (fun c => mem c problem_set) k.

(** A tag child that is not dropped. *)
Definition kept (t : Element) : bool := negb (has_problem_char (raw_key t)).

(** The two other normalisations of a value, before and after the one of
    the street name. *)
Definition before_street (key value : pystr) : pystr :=
  if pystr_eqb key (str "city") then update_city_name value else value.

Definition after_street (key value : pystr) : pystr :=
  if pystr_eqb key (str "postcode")
  then (if fst (update_postcode value)
        then str "fixme:" ++ snd (update_postcode value)
        else snd (update_postcode value))
  else value.

(** The parts of a key before and after its first colon. *)
Fixpoint before_colon (k : pystr) : pystr :=
  match k with
  | [] => []
  | c :: k' => if ascii_eqb c ":"%char then [] else c :: before_colon k'
  end.

Fixpoint after_colon (k : pystr) : pystr :=
  match k with
  | [] => []
  | c :: k' => if ascii_eqb c ":"%char then k' else after_colon k'
  end.

(** The record of one tag child that has [k] and [v]. *)
Definition tag_record (id default_tag_type : pystr) (t : Element)
    : option TagRecord :=
  let k := raw_key t in
  if has_problem_char k then None
  else
    let key := if contains (str ":") k then after_colon k else k in
    let type := if contains (str ":") k then before_colon k else default_tag_type in
    Some (MkTag id key
            (after_street key
               (update_street_name (before_street key (raw_value t)) mapping))
            type).

(** The tag records of what [extract_element] returns. *)
Definition shaped_tags (sh : Shaped) : list TagRecord :=
  match sh with
  | ShapedNode r => node_tags r
  | ShapedWay r => way_tags r
  end.

(** The forbidden set, character by character. *)
Definition forbidden : pystr :=
  ["="; "+"; "/"; "&"; "<"; ">"; ";"; "'"; DQUOTE; "?"; "%"; "#"; "$"; "@";
   ","; "."; " "; TAB; CR; LF]%char.

(** The key and the type of the record of a tag child. *)
Definition key_type_rule (t : Element) (rec : TagRecord) : Prop :=
  (In ":"%char (raw_key t) ->
   exists type key,
     raw_key t = type ++ ":"%char :: key /\ ~ In ":"%char type
     /\ tag_type rec = type /\ tag_key rec = key)
  /\ (~ In ":"%char (raw_key t) ->
      tag_type rec = str "regular" /\ tag_key rec = raw_key t).

(** The value of the record of a tag child. *)
Definition street_normalised (t : Element) (rec : TagRecord) : Prop :=
  tag_value rec =
  after_street (tag_key rec)
    (update_street_name (before_street (tag_key rec) (raw_value t)) mapping).

(** ** Examples *)

(** The node of the specification's scenario, with two more tag children,
    and a way. *)
Definition attrs_of (l : list (string * string)) : gmap pystr pystr :=
  list_to_map (map (fun p => (str (fst p), str (snd p))) l).

Definition example_tag (k v : string) : Element :=
  MkElement (str "tag") (attrs_of [("k", k); ("v", v)]%string) [].

Definition example_nd (ref : string) : Element :=
  MkElement (str "nd") (attrs_of [("ref", ref)]%string) [].

Definition example_node : Element :=
  MkElement (str "node")
    (attrs_of [("id", "1"); ("lat", "47.1"); ("lon", "-122.3"); ("user", "u");
               ("uid", "2"); ("version", "1"); ("changeset", "3");
               ("timestamp", "t")]%string)
    [example_tag "addr:postcode" "98199"; example_tag "bad key" "x";
     example_tag "name" "Main St"].

Definition example_way : Element :=
  MkElement (str "way")
    (attrs_of [("id", "7"); ("user", "u"); ("uid", "2"); ("version", "1");
               ("changeset", "3"); ("timestamp", "t")]%string)
    [example_nd "10"; example_tag "addr:street" "Elm Rd."; example_nd "11";
     example_nd "12"].

(** A node without [uid], and a node whose postcode ends in a street
    abbreviation. *)
Definition example_no_uid : Element :=
  MkElement (str "node")
    (attrs_of [("id", "1"); ("lat", "47.1"); ("lon", "-122.3"); ("user", "u");
               ("version", "1"); ("changeset", "3"); ("timestamp", "t")]%string)
    [].

Definition example_postcode (kind : string) : Element :=
  MkElement (str kind)
    (attrs_of [("id", "1"); ("lat", "47.1"); ("lon", "-122.3"); ("user", "u");
               ("uid", "2"); ("version", "1"); ("changeset", "3");
               ("timestamp", "t")]%string)
    [example_tag "addr:postcode" "98101 NE"].

(** ** Further vocabulary *)

(** A word of [str.split]: not empty, without whitespace. *)
Definition is_word_of_split (w : pystr) : Prop :=
  w <> [] /\ Forall (fun c => is_space c = false) w.

(** The value of the record of a tag child whose key is [postcode]. *)
Definition postcode_value_rule (t : Element) (rec : TagRecord) : Prop :=
  tag_key rec = str "postcode" ->
  tag_value rec =
  if postcode_format (raw_value t)
  then take 5 (raw_value t)
  else str "fixme:" ++ update_street_name (raw_value t) mapping.

(** The key and the type of a record have no character of the forbidden
    set, and the type has no colon. *)
Definition clean_key_type (rec : TagRecord) : Prop :=
  has_problem_char (tag_key rec) = false
  /\ has_problem_char (tag_type rec) = false
  /\ ~ In ":"%char (tag_type rec).

(** A node whose only tag child has a forbidden key and no [v], and a way
    with an nd child without [ref]. *)
Definition example_tag_without_v : Element :=
  MkElement (str "node") (attrib example_node)
    [MkElement (str "tag") (attrs_of [("k", "bad key")]%string) []].

Definition example_nd_without_ref : Element :=
  MkElement (str "way") (attrib example_way)
    [example_nd "10"; MkElement (str "nd") ∅ []].

(** The rows of the csv files that an element of an OSM document gives. *)
Definition attribute_row (fields : list pystr) (e : Element) : row :=
  map (fun f => CStr (attr f e)) fields.

(** Every file of [t] is the beginning of the same file of [t']. *)
Definition files_grow (t t' : Tables) : Prop :=
  nodes_file t `prefix_of` nodes_file t'
  /\ nodes_tags_file t `prefix_of` nodes_tags_file t'
  /\ ways_file t `prefix_of` ways_file t'
  /\ way_nodes_file t `prefix_of` way_nodes_file t'
  /\ way_tags_file t `prefix_of` way_tags_file t'.

(** * Properties *)

(** ** Characters *)

Ltac all_chars c :=
  destruct c as [[] [] [] [] [] [] [] []]; vm_compute; try reflexivity;
  try discriminate; try tauto; auto.

Lemma word_not_space c : is_word c = true -> is_space c = false.
Proof. all_chars c. Qed.

Lemma LF_space : is_space LF = true.
Proof. reflexivity. Qed.

Lemma ascii_eqb_eq a b : ascii_eqb a b = true <-> a = b.
Proof. apply Ascii.eqb_eq. Qed.

Lemma ascii_eqb_refl a : ascii_eqb a a = true.
Proof. apply Ascii.eqb_refl. Qed.

Lemma pystr_eqb_eq a b : pystr_eqb a b = true <-> a = b.
Proof. unfold pystr_eqb. apply bool_decide_eq_true. Qed.


Lemma pystr_eqb_refl a : pystr_eqb a a = true.
Proof. apply pystr_eqb_eq. reflexivity. Qed.

(** ** Postcodes *)

Lemma search_from_bol (r : regex) rest c sk adv :
  search_from (Seq Bol r) (Some c) sk rest adv = None.
Proof.
  revert c sk adv. induction rest as [|d rest IH]; intros c sk adv.
  - reflexivity.
  - simpl. unfold match_here. simpl. apply IH.
Qed.

Lemma re_search_bol (r : regex) s :
  re_search (Seq Bol r) s =
  match match_here (Seq Bol r) None s false with
  | Some rest' => Some (MkMatch [] (take (length s - length rest') s) rest')
  | None => None
  end.
Proof.
  unfold re_search. destruct s as [|c s]; simpl.
  - destruct (match_here _ _ _ _); reflexivity.
  - destruct (match_here _ _ _ _); [reflexivity|]. apply search_from_bol.
Qed.

Lemma zip_format_length s :
  zip_format s = true -> length s = 5 \/ length s = 10.
Proof.
  unfold zip_format, five_digits, four_digits. intros H.
  apply orb_true_iff in H. destruct H as [H|H].
  - apply andb_true_iff in H. destruct H as [H _].
    apply Nat.eqb_eq in H. auto.
  - apply andb_true_iff in H. destruct H as [H1 H2].
    apply andb_true_iff in H1. destruct H1 as [H1 _]. apply Nat.eqb_eq in H1.
    pose proof (take_drop 5 s) as E.
    destruct (drop 5 s) as [|sep ext] eqn:D; [discriminate|].
    apply andb_true_iff in H2. destruct H2 as [_ H2].
    apply andb_true_iff in H2. destruct H2 as [H2 _]. apply Nat.eqb_eq in H2.
    right. rewrite <- E. rewrite length_app. simpl. lia.
Qed.

Lemma postcode_format_length s :
  postcode_format s = true -> length s <= 11.
Proof.
  unfold postcode_format. intros H. apply orb_true_iff in H.
  destruct H as [H|H].
  - apply zip_format_length in H. lia.
  - destruct (rev s) as [|c r] eqn:E; [discriminate|].
    apply andb_true_iff in H. destruct H as [_ H].
    apply zip_format_length in H. rewrite length_rev in H.
    assert (length s = S (length r)).
    { rewrite <- (length_rev s), E. reflexivity. }
    lia.
Qed.

Ltac split_atoms :=
  repeat match goal with
    | |- context [hyphen_or_space ?c] =>
        unfold hyphen_or_space; cbn -[is_digit is_space ascii_eqb LF]
    | |- context [is_digit ?c] =>
        let D := fresh "D" in destruct (is_digit c) eqn:D; cbn -[is_digit is_space ascii_eqb LF]
    | |- context [ascii_eqb ?c ?d] =>
        let D := fresh "D" in destruct (ascii_eqb c d) eqn:D; cbn -[is_digit is_space ascii_eqb LF]
    | |- context [is_space ?c] =>
        let D := fresh "D" in destruct (is_space c) eqn:D; cbn -[is_digit is_space ascii_eqb LF]
    end.

Lemma postcode_match_format s :
  is_some (match_here postcode_format_re None s false) = postcode_format s.
Proof.
  do 12 (destruct s as [|? s];
         [ unfold match_here, postcode_format, zip_format, five_digits,
             four_digits, hyphen_or_space;
           cbn -[is_digit is_space ascii_eqb LF]; split_atoms; reflexivity |]).
  transitivity false.
  - unfold match_here, hyphen_or_space.
    cbn -[is_digit is_space ascii_eqb LF]; split_atoms; reflexivity.
  - symmetry. apply not_true_is_false. intros H.
    apply postcode_format_length in H. simpl in H. lia.
Qed.

Lemma update_postcode_format (postcode : pystr) :
  update_postcode postcode =
  if postcode_format postcode then (false, take 5 postcode) else (true, postcode).
Proof.
  unfold update_postcode. unfold postcode_format_re at 1. rewrite re_search_bol.
  fold postcode_format_re. rewrite <- postcode_match_format.
  destruct (match_here postcode_format_re None postcode false); reflexivity.
Qed.

(** C1, as the specification states it, fails: a tab between the two
    groups of digits is accepted, as any whitespace character is. *)
Lemma update_postcode_tab_separator :
  claimed_format (str "98101" ++ [TAB] ++ str "1234") = false /\
  update_postcode (str "98101" ++ [TAB] ++ str "1234") = (false, str "98101").
Proof. split; reflexivity. Qed.

(** C1 (amended).  [update_postcode code] returns [(false, code[:5])]
    exactly when [code] is five digits, or five digits, one hyphen or one
    whitespace character and four digits, in both cases with at most one
    line feed after them; for every other string it returns
    [(true, code)]. *)
Theorem update_postcode_valid_iff (code : pystr) :
  (update_postcode code = (false, take 5 code) <-> postcode_format code = true)
  /\ (postcode_format code = false -> update_postcode code = (true, code)).
Proof.
  rewrite update_postcode_format.
  destruct (postcode_format code); split; try split; intros; congruence.
Qed.

(** The examples of the specification, and a postcode that ends in a
    line feed. *)
Example update_postcode_examples :
  update_postcode (str "98199") = (false, str "98199")
  /\ update_postcode (str "98199-1234") = (false, str "98199")
  /\ update_postcode (str "98199 1234") = (false, str "98199")
  /\ update_postcode (str "ABCDE") = (true, str "ABCDE")
  /\ update_postcode (str "123") = (true, str "123")
  /\ update_postcode (str "123456") = (true, str "123456")
  /\ update_postcode (str "98199" ++ [LF]) = (false, str "98199").
Proof. repeat split; reflexivity. Qed.

(** ** City names *)

Lemma split_ws_aux_words s : forall cur,
  Forall (fun c => is_space c = false) cur ->
  match cur with
  | [] => words_of s (split_ws_aux [] s)
  | _ => exists w ws, split_ws_aux cur s = w :: ws /\
         words_of (rev cur ++ s) (w :: ws)
  end.
Proof.
  induction s as [|c s IH]; intros cur Hcur.
  - destruct cur as [|d cur]; simpl.
    + constructor.
    + eexists _, _. split; [reflexivity|]. rewrite app_nil_r.
      apply words_last.
      * intros E. apply (f_equal (@length _)) in E.
        rewrite length_app in E. simpl in E. lia.
      * apply Forall_app. split; [|inversion Hcur; auto].
        apply Forall_rev. inversion Hcur; auto.
  - simpl. destruct (is_space c) eqn:Hc.
    + destruct cur as [|d cur].
      * apply words_space; [exact Hc|]. apply (IH [] Hcur).
      * eexists _, _. split; [reflexivity|].
        apply words_word; auto.
        -- intros E. apply (f_equal (@length _)) in E.
           simpl in E. rewrite length_app in E. simpl in E. lia.
        -- change (rev cur ++ [d]) with (rev (d :: cur)).
           apply Forall_rev. exact Hcur.
        -- apply (IH [] (Forall_nil_2 _)).
    + specialize (IH (c :: cur) (Forall_cons_2 _ _ _ Hc Hcur)).
      simpl in IH. destruct IH as (w & ws & E & W).
      rewrite <- app_assoc in W. simpl in W.
      destruct cur as [|d cur].
      * rewrite E. exact W.
      * eexists _, _. split; [exact E|]. exact W.
Qed.

Lemma split_ws_words s : words_of s (split_ws s).
Proof. apply (split_ws_aux_words s [] (Forall_nil_2 _)). Qed.



Lemma last_rev_head (l : pystr) : last (rev l) = head l.
Proof.
  destruct l as [|c l]; [reflexivity|]. simpl. apply last_snoc.
Qed.



Example update_city_name_examples :
  update_city_name (str "seattle, WA") = str "Seattle"
  /\ update_city_name (str "new   york") = str "New York"
  /\ update_city_name (str "TACOMA") = str "Tacom".
Proof. repeat split; reflexivity. Qed.

(** ** Street names *)

Lemma at_eol_space c l : at_eol (c :: l) = true -> is_space c = true.
Proof.
  destruct l; simpl; [|discriminate].
  intros H. apply ascii_eqb_eq in H. subst. reflexivity.
Qed.

Lemma at_eol_run_end l : at_eol l = true -> run_end l = Some l.
Proof.
  destruct l as [|c l]; [reflexivity|]. intros H. cbn -[at_eol].
  rewrite (at_eol_space _ _ H), H. reflexivity.
Qed.

Lemma dot_not_space c : is_dot c = true -> is_space c = false.
Proof. intros H. apply ascii_eqb_eq in H. subst. reflexivity. Qed.

Section StreetTail.

Context {R : Type} (f : pystr -> option R).

Lemma tail_k_space prev c l :
  is_space c = true ->
  tail_k f prev (c :: l) = if at_eol (c :: l) then f (c :: l) else None.
Proof.
  intros Hc. unfold tail_k. cbn -[at_eol].
  destruct (is_dot c) eqn:Hd.
  - apply dot_not_space in Hd. congruence.
  - reflexivity.
Qed.

Lemma tail_k_not_space prev c l :
  is_space c = false ->
  tail_k f prev (c :: l) =
  if is_dot c then (if at_eol l then f l else None) else None.
Proof.
  intros Hc. unfold tail_k. cbn -[at_eol].
  assert (E : at_eol (c :: l) = false).
  { destruct (at_eol (c :: l)) eqn:E; [|reflexivity].
    apply at_eol_space in E. congruence. }
  rewrite E.
  destruct (is_dot c); [|reflexivity].
  destruct (at_eol l); [|reflexivity].
  destruct (f l); reflexivity.
Qed.

Lemma star_run_end l : forall prev,
  star_cls not_space prev l (tail_k f) =
  match run_end l with Some x => f x | None => None end.
Proof.
  induction l as [|c l IH]; intros prev.
  - reflexivity.
  - cbn -[at_eol tail_k]. unfold not_space at 1. destruct (is_space c) eqn:Hc.
    + cbn -[at_eol tail_k]. rewrite (tail_k_space prev c l Hc).
      destruct (at_eol (c :: l)); reflexivity.
    + cbn -[at_eol tail_k]. rewrite IH.
      destruct (run_end l) as [x|] eqn:E.
      * destruct (f x) eqn:Fx; [reflexivity|].
        rewrite (tail_k_not_space prev c l Hc).
        destruct (is_dot c); [|reflexivity].
        destruct (at_eol l) eqn:A; [|reflexivity].
        apply at_eol_run_end in A. congruence.
      * rewrite (tail_k_not_space prev c l Hc).
        destruct (is_dot c); [|reflexivity].
        destruct (at_eol l) eqn:A; [|reflexivity].
        apply at_eol_run_end in A. congruence.
Qed.

End StreetTail.

Lemma run_end_spec l x :
  run_end l = Some x ->
  exists g, l = g ++ x /\ Forall (fun c => is_space c = false) g
            /\ at_eol x = true.
Proof.
  revert x. induction l as [|c l IH]; intros x H.
  - inversion H. exists []. repeat split; auto.
  - cbn -[at_eol] in H. destruct (is_space c) eqn:Hc.
    + destruct (at_eol (c :: l)) eqn:A; [|discriminate].
      inversion H; subst. exists []. repeat split; auto.
    + destruct (IH x H) as (g & E & F & A). exists (c :: g).
      repeat split; auto. simpl. congruence.
Qed.

Lemma run_end_run g post :
  Forall (fun c => is_space c = false) g -> at_eol post = true ->
  run_end (g ++ post) = Some post.
Proof.
  intros F A. induction F as [|c g Hc F IH]; simpl.
  - apply at_eol_run_end. exact A.
  - rewrite Hc. exact IH.
Qed.

Lemma run_end_none a c b :
  is_space c = true -> b <> [] -> run_end (a ++ c :: b) = None.
Proof.
  intros Hc Hb. induction a as [|d a IH].
  - simpl. rewrite Hc. destruct b; [congruence|reflexivity].
  - simpl app. simpl run_end. destruct (is_space d); [|exact IH].
    destruct a; reflexivity.
Qed.

Lemma street_match_here prev l :
  match_here street_type_re prev l false = street_here prev l.
Proof.
  transitivity
    (if xorb (word_before prev) (word_after l)
     then match l with
          | c :: l' =>
              if not_space c
              then star_cls not_space (Some c) l'
                     (tail_k (fun y => accept false l None y))
              else None
          | [] => None
          end
     else None); [reflexivity|].
  unfold street_here. destruct (xorb _ _); [|reflexivity].
  destruct l as [|c l]; [reflexivity|].
  unfold not_space at 1. destruct (is_space c); [reflexivity|].
  cbn [negb]. rewrite star_run_end.
  destruct (run_end l); reflexivity.
Qed.

Lemma at_eol_cases post : at_eol post = true <-> post = [] \/ post = [LF].
Proof.
  split.
  - destruct post as [|c [|d post]]; simpl; auto; [|discriminate].
    intros H. apply ascii_eqb_eq in H. subst. auto.
  - intros [->| ->]; reflexivity.
Qed.

Lemma head_last_rev (sk : pystr) : head sk = last (rev sk).
Proof. symmetry. apply last_rev_head. Qed.

Lemma snoc_or_nil {A} (l : list A) : l = [] \/ exists j c, l = j ++ [c].
Proof.
  induction l as [|c l _] using rev_ind; [left; reflexivity|].
  right. exists l, c. reflexivity.
Qed.

Lemma fresh_not_word sk : fresh sk -> word_before (head sk) = false.
Proof.
  intros (p0 & junk & E & Hp & Hj). rewrite head_last_rev, E.
  destruct (snoc_or_nil junk) as [->|(j & c & ->)].
  - rewrite app_nil_r. destruct Hp as [->|(p & c & -> & Hc)].
    + reflexivity.
    + rewrite last_snoc. simpl.
      destruct (is_word c) eqn:W; [|reflexivity].
      apply word_not_space in W. congruence.
  - rewrite app_assoc, last_snoc. simpl.
    apply Forall_app in Hj. destruct Hj as [_ Hj].
    inversion Hj; subst. tauto.
Qed.

Lemma search_street_step prev sk l :
  search_from street_type_re prev sk l false =
  match street_here prev l with
  | Some x => Some (MkMatch (rev sk) (take (length l - length x) l) x)
  | None =>
      match l with
      | [] => None
      | c :: l1 => search_from street_type_re (Some c) (c :: sk) l1 false
      end
  end.
Proof.
  rewrite <- street_match_here. destruct l; reflexivity.
Qed.

Lemma take_group (g x : pystr) : take (length (g ++ x) - length x) (g ++ x) = g.
Proof.
  rewrite length_app. replace (length g + length x - length x) with (length g) by lia.
  induction g as [|c g IH]; simpl.
  - apply take_0.
  - f_equal. exact IH.
Qed.

Lemma fresh_snoc_space sk c : is_space c = true -> fresh (c :: sk).
Proof.
  intros Hc. exists (rev sk ++ [c]), []. split; [|split].
  - simpl. rewrite app_nil_r. reflexivity.
  - right. exists (rev sk), c. auto.
  - constructor.
Qed.

Lemma fresh_snoc_junk sk c :
  fresh sk -> is_space c = false -> is_word c = false -> fresh (c :: sk).
Proof.
  intros (p0 & junk & E & Hp & Hj) Hc Hw.
  exists p0, (junk ++ [c]). split; [|split].
  - simpl. rewrite E, app_assoc. reflexivity.
  - exact Hp.
  - apply Forall_app. split; [exact Hj|]. constructor; auto.
Qed.

(** What [search] finds is a street type, *)
Lemma search_street_sound l : forall sk m,
  fresh sk \/ run_end l = None ->
  search_from street_type_re (head sk) sk l false = Some m ->
  street_type_at (rev sk ++ l) (m_before m) (m_group m) (m_after m).
Proof.
  induction l as [|c l IH]; intros sk m St H; rewrite search_street_step in H.
  - unfold street_here in H. destruct (xorb _ _); discriminate.
  - destruct St as [F|D].
    + pose proof (fresh_not_word _ F) as Hb.
      unfold street_here in H. rewrite Hb in H. cbn [word_after xorb] in H.
      destruct (is_word c) eqn:W.
      * rewrite (word_not_space _ W) in H.
        destruct (run_end l) as [x|] eqn:E.
        -- inversion H; subst m; clear H. cbn [m_before m_group m_after].
           destruct (run_end_spec _ _ E) as (g & -> & Fg & A).
           replace (take (S (length (g ++ x)) - length x) (c :: g ++ x))
             with (c :: g) by (symmetry; apply (take_group (c :: g) x)).
           destruct F as (p0 & junk & E0 & Hp & Hj).
           split; [reflexivity|]. split; [apply at_eol_cases; exact A|].
           split; [exists c, g; auto|].
           split; [constructor; [apply word_not_space; exact W|exact Fg]|].
           exists p0, junk. auto.
        -- specialize (IH (c :: sk) m (or_intror eq_refl) H).
           simpl in IH. rewrite <- app_assoc in IH. exact IH.
      * assert (F' : fresh (c :: sk)).
        { destruct (is_space c) eqn:Hc.
          - apply fresh_snoc_space. exact Hc.
          - apply fresh_snoc_junk; auto. }
        specialize (IH (c :: sk) m (or_introl F') H).
        simpl in IH. rewrite <- app_assoc in IH. exact IH.
    + cbn -[at_eol] in D.
      assert (N : street_here (head sk) (c :: l) = None).
      { unfold street_here. destruct (xorb _ _); [|reflexivity].
        destruct (is_space c); [reflexivity|exact D]. }
      rewrite N in H.
      assert (St : fresh (c :: sk) \/ run_end l = None).
      { destruct (is_space c) eqn:Hc.
        - left. apply fresh_snoc_space. exact Hc.
        - right. exact D. }
      specialize (IH (c :: sk) m St H).
      simpl in IH. rewrite <- app_assoc in IH. exact IH.
Qed.

Lemma search_skip_p0 p : forall sk c l,
  is_space c = true -> l <> [] ->
  search_from street_type_re (head sk) sk (p ++ c :: l) false =
  search_from street_type_re (Some c) (c :: rev p ++ sk) l false.
Proof.
  induction p as [|d p IH]; intros sk c l Hc Hl; rewrite search_street_step.
  - simpl app. unfold street_here. rewrite Hc.
    destruct (xorb _ _); reflexivity.
  - simpl app.
    assert (N : street_here (head sk) (d :: p ++ c :: l) = None).
    { unfold street_here. destruct (xorb _ _); [|reflexivity].
      destruct (is_space d); [reflexivity|].
      apply run_end_none; assumption. }
    rewrite N. pose proof (IH (d :: sk) c l Hc Hl) as E.
    change (head (d :: sk)) with (Some d) in E. rewrite E.
    simpl rev. rewrite <- app_assoc. reflexivity.
Qed.

Lemma search_skip_junk junk : forall sk l,
  Forall (fun c => is_space c = false /\ is_word c = false) junk ->
  word_before (head sk) = false ->
  search_from street_type_re (head sk) sk (junk ++ l) false =
  search_from street_type_re (head (rev junk ++ sk)) (rev junk ++ sk) l false
  /\ word_before (head (rev junk ++ sk)) = false.
Proof.
  induction junk as [|d junk IH]; intros sk l Hj Hb.
  - split; [reflexivity|exact Hb].
  - inversion Hj as [|? ? [Hd Hw] Hj']; subst.
    rewrite search_street_step. simpl app.
    unfold street_here. rewrite Hb. cbn [word_after xorb]. rewrite Hw.
    destruct (IH (d :: sk) l Hj' Hw) as [E B].
    change (head (d :: sk)) with (Some d) in E. rewrite E.
    simpl rev. rewrite <- app_assoc. split; [reflexivity|exact B].
Qed.

Lemma search_at_word sk c g post :
  word_before (head sk) = false -> is_word c = true ->
  Forall (fun c => is_space c = false) g -> at_eol post = true ->
  search_from street_type_re (head sk) sk (c :: g ++ post) false =
  Some (MkMatch (rev sk) (c :: g) post).
Proof.
  intros Hb W Fg A. rewrite search_street_step.
  unfold street_here. rewrite Hb. cbn [word_after xorb]. rewrite W.
  rewrite (word_not_space _ W), (run_end_run _ _ Fg A).
  f_equal. f_equal. apply (take_group (c :: g) post).
Qed.

(** and a street type is what [search] finds. *)
Lemma search_street_complete name pre g post :
  street_type_at name pre g post ->
  re_search street_type_re name = Some (MkMatch pre g post).
Proof.
  intros (-> & A & (c & g' & -> & W) & Fg & p0 & junk & -> & Hp & Hj).
  apply at_eol_cases in A. inversion Fg as [|? ? _ Fg']; subst.
  unfold re_search. destruct Hp as [->|(p & sp & -> & Hsp)].
  - simpl app.
    destruct (search_skip_junk junk [] (c :: g' ++ post) Hj eq_refl) as [E B].
    change (@head ascii [] ) with (@None ascii) in E.
    rewrite E. rewrite (search_at_word _ _ _ _ B W Fg' A).
    rewrite app_nil_r, rev_involutive. reflexivity.
  - rewrite <- !app_assoc. simpl app.
    pose proof (search_skip_p0 p [] sp (junk ++ c :: g' ++ post) Hsp) as E0.
    change (@head ascii []) with (@None ascii) in E0. rewrite E0.
    2:{ destruct junk; discriminate. }
    assert (Hb : word_before (head (sp :: rev p ++ [])) = false).
    { simpl. destruct (is_word sp) eqn:Ws; [|reflexivity].
      apply word_not_space in Ws. congruence. }
    destruct (search_skip_junk junk (sp :: rev p ++ []) (c :: g' ++ post) Hj Hb)
      as [E B].
    change (Some sp) with (head (sp :: rev p ++ [])).
    rewrite E. rewrite (search_at_word _ _ _ _ B W Fg' A).
    f_equal. f_equal. rewrite app_nil_r, rev_app_distr. simpl rev.
    rewrite !rev_involutive, <- !app_assoc. reflexivity.
Qed.

Lemma re_search_street name m :
  re_search street_type_re name = Some m ->
  street_type_at name (m_before m) (m_group m) (m_after m).
Proof.
  intros H. apply (search_street_sound name [] m); [|exact H].
  left. exists [], []. repeat split; auto.
Qed.

Lemma search_street_post prev post :
  post = [] \/ post = [LF] ->
  search_from street_type_re prev [] post false = None.
Proof.
  intros [->| ->]; rewrite search_street_step; unfold street_here.
  - destruct (xorb _ _); reflexivity.
  - rewrite LF_space. destruct (xorb _ _);
      (rewrite search_street_step; unfold street_here;
       destruct (xorb _ _); reflexivity).
Qed.

Lemma re_sub_street name pre g post repl :
  street_type_at name pre g post ->
  re_sub street_type_re repl name = pre ++ repl ++ post.
Proof.
  intros H. pose proof (search_street_complete _ _ _ _ H) as E.
  destruct H as (_ & A & (c & g' & -> & _) & _).
  unfold re_sub.
  replace (2 * length name + 2) with (S (S (2 * length name))) by lia.
  cbn [sub_loop]. unfold re_search in E. rewrite E.
  cbn [m_before m_group m_after].
  rewrite (search_street_post _ _ A). reflexivity.
Qed.

Lemma update_street_name_found name pre g post m :
  street_type_at name pre g post ->
  update_street_name name m =
  if in_list g (keys m)
  then match lookup_key g m with
       | Some e => pre ++ e ++ post
       | None => name
       end
  else name.
Proof.
  intros H. unfold update_street_name.
  rewrite (search_street_complete _ _ _ _ H). cbn [m_group].
  destruct (in_list g (keys m)); [|reflexivity].
  destruct (lookup_key g m) as [e|]; [|reflexivity].
  apply (re_sub_street _ _ g). exact H.
Qed.

Lemma update_street_name_none name m :
  re_search street_type_re name = None -> update_street_name name m = name.
Proof. intros H. unfold update_street_name. rewrite H. reflexivity. Qed.

Lemma in_list_In x l : in_list x l = true <-> In x l.
Proof.
  unfold in_list. rewrite existsb_exists. split.
  - intros (y & Hy & E). apply pystr_eqb_eq in E. subst. exact Hy.
  - intros H. exists x. split; [exact H|apply pystr_eqb_refl].
Qed.

Lemma lookup_key_In g e m : lookup_key g m = Some e -> In (g, e) m.
Proof.
  induction m as [|[k v] m IH]; simpl; [discriminate|].
  destruct (pystr_eqb g k) eqn:E.
  - apply pystr_eqb_eq in E. intros H. inversion H; subst. auto.
  - auto.
Qed.

(** The keys of [mapping] are distinct, *)
Lemma mapping_lookup g e : In (g, e) mapping -> lookup_key g mapping = Some e.
Proof.
  intros H. unfold mapping in H. simpl in H.
  repeat (destruct H as [H|H]; [inversion H; subst; reflexivity|]).
  contradiction.
Qed.

(** and an expansion is one word that starts with a letter and is not a
    key. *)
Lemma mapping_expansion g e :
  In (g, e) mapping ->
  (exists c e', e = c :: e' /\ is_word c = true)
  /\ Forall (fun c => is_space c = false) e
  /\ in_list e (keys mapping) = false.
Proof.
  intros H. unfold mapping in H. simpl in H.
  repeat (destruct H as [H|H];
          [inversion H; subst; split; [eexists _, _; split; reflexivity|];
           split; [repeat constructor|reflexivity]|]).
  contradiction.
Qed.

(** C6, as the specification states it, fails: the final token [(St] is
    not a key of the mapping, and the name is changed all the same. *)
Lemma update_street_name_paren :
  final_token (str "(St") = str "(St"
  /\ in_list (str "(St") (keys mapping) = false
  /\ update_street_name (str "(St") mapping = str "(Street".
Proof. repeat split; reflexivity. Qed.

(** C6 (amended).  Let the street type of a name be the part [g] of its
    final token (the run of characters that are not whitespace at the end
    of the name, or before one final line feed) from the first word
    character of that token on.  When the street type is a key of the
    mapping, [update_street_name] replaces exactly it with the mapped
    expansion and leaves the rest of the name as it is; when the name has
    no street type, or one that is not a key, the name is returned
    unchanged. *)
Theorem update_street_name_street_type (name : pystr) :
  (forall pre g post e,
     street_type_at name pre g post -> In (g, e) mapping ->
     update_street_name name mapping = pre ++ e ++ post)
  /\ ((forall pre g post,
         street_type_at name pre g post -> ~ In g (keys mapping)) ->
      update_street_name name mapping = name).
Proof.
  split.
  - intros pre g post e H Hin.
    rewrite (update_street_name_found _ _ _ _ _ H).
    rewrite (mapping_lookup _ _ Hin).
    assert (K : in_list g (keys mapping) = true).
    { apply in_list_In. unfold keys. apply (in_map fst _ _ Hin). }
    rewrite K. reflexivity.
  - intros H. destruct (re_search street_type_re name) as [m|] eqn:E.
    + apply re_search_street in E.
      rewrite (update_street_name_found _ _ _ _ _ E).
      destruct (in_list (m_group m) (keys mapping)) eqn:K; [|reflexivity].
      apply in_list_In in K. exfalso. exact (H _ _ _ E K).
    + apply update_street_name_none. exact E.
Qed.

Lemma main_st_street_type :
  street_type_at (str "Main St") (str "Main ") (str "St") [].
Proof.
  split; [reflexivity|]. split; [left; reflexivity|].
  split; [eexists _, _; split; reflexivity|].
  split; [repeat constructor|].
  exists (str "Main "), []. split; [reflexivity|]. split; [|constructor].
  right. exists (str "Main"), " "%char. split; reflexivity.
Qed.

Lemma update_street_name_street_type_example :
  street_type_at (str "Main St") (str "Main ") (str "St") []
  /\ update_street_name (str "Main St") mapping = str "Main " ++ str "Street" ++ [].
Proof.
  split; [exact main_st_street_type|].
  exact (proj1 (update_street_name_street_type (str "Main St"))
           (str "Main ") (str "St") [] (str "Street")
           main_st_street_type (or_introl eq_refl)).
Defined.

(** The examples of the specification, and a name that ends in a line
    feed. *)
Example update_street_name_examples :
  update_street_name (str "Main St") mapping = str "Main Street"
  /\ update_street_name (str "Elm Rd.") mapping = str "Elm Road"
  /\ update_street_name (str "Main Boulevard") mapping = str "Main Boulevard"
  /\ update_street_name (str "Main St ") mapping = str "Main St "
  /\ update_street_name (str "Main St" ++ [LF]) mapping = str "Main Street" ++ [LF].
Proof. repeat split; reflexivity. Qed.

(** C8.  [update_street_name] with the module's mapping is idempotent. *)
Theorem update_street_name_idempotent (name : pystr) :
  update_street_name (update_street_name name mapping) mapping =
  update_street_name name mapping.
Proof.
  destruct (re_search street_type_re name) as [m|] eqn:E.
  - apply re_search_street in E.
    rewrite (update_street_name_found _ _ _ _ _ E).
    destruct (in_list (m_group m) (keys mapping)) eqn:K.
    2:{ rewrite (update_street_name_found _ _ _ _ _ E), K. reflexivity. }
    destruct (lookup_key (m_group m) mapping) as [e|] eqn:L.
    2:{ rewrite (update_street_name_found _ _ _ _ _ E), K, L. reflexivity. }
    apply lookup_key_In in L.
    destruct (mapping_expansion _ _ L) as (Hw & Hs & Hk).
    assert (E' : street_type_at (m_before m ++ e ++ m_after m)
                   (m_before m) e (m_after m)).
    { destruct E as (_ & A & _ & _ & P).
      split; [reflexivity|]. split; [exact A|]. split; [exact Hw|].
      split; [exact Hs|exact P]. }
    rewrite (update_street_name_found _ _ _ _ _ E'), Hk. reflexivity.
  - rewrite (update_street_name_none _ _ E). apply update_street_name_none.
    exact E.
Qed.

(** ** The extractors *)

Lemma iter_all_leaf c : leaf c -> iter_all c = [c].
Proof. destruct c as [t a cs]. unfold leaf. simpl. intros ->. reflexivity. Qed.

Lemma flat_map_iter_leaves cs : Forall leaf cs -> flat_map iter_all cs = cs.
Proof.
  induction 1 as [|c cs Hc _ IH]; [reflexivity|].
  simpl. rewrite (iter_all_leaf _ Hc), IH. reflexivity.
Qed.

Lemma iter_children name e :
  tag e <> name -> Forall leaf (children e) ->
  iter name e = filter (fun x => tag x = name) (children e).
Proof.
  intros Ht Hl. unfold iter. destruct e as [t a cs]. simpl in *.
  rewrite (flat_map_iter_leaves _ Hl).
  rewrite filter_cons. simpl. destruct (decide (t = name)); [contradiction|reflexivity].
Qed.

Lemma getitem_Some d k v : d !! k = Some v -> getitem d k = Ok v.
Proof. unfold getitem. intros ->. reflexivity. Qed.

Lemma getitem_None d k : d !! k = None -> getitem d k = Raise (KeyError k).
Proof. unfold getitem. intros ->. reflexivity. Qed.

Lemma copy_fields_ok e fields : forall acc,
  has_attrs fields e ->
  exists m, copy_fields e fields acc = Ok m
            /\ forall f, m !! f = if decide (f ∈ fields) then attrib e !! f
                                  else acc !! f.
Proof.
  induction fields as [|k fields IH]; intros acc H.
  - exists acc. split; [reflexivity|]. intros f.
    destruct (decide (f ∈ [])) as [Hin|]; [inversion Hin|reflexivity].
  - apply Forall_cons in H as [[v Hv] H'].
    destruct (IH (<[k := v]> acc) H') as (m & E & L).
    exists m. split.
    + simpl. rewrite (getitem_Some _ _ _ Hv). exact E.
    + intros f. rewrite L.
      destruct (decide (f ∈ fields)) as [Hin|Hnin].
      * rewrite decide_True by (right; exact Hin). reflexivity.
      * destruct (decide (f = k)) as [->|Hne].
        -- rewrite decide_True by left. rewrite lookup_insert_eq. congruence.
        -- rewrite lookup_insert_ne by congruence.
           rewrite decide_False; [reflexivity|].
           intros Hin. inversion Hin; subst; contradiction.
Qed.

Lemma copy_fields_missing e fields : forall acc,
  ~ has_attrs fields e ->
  exists k, k ∈ fields /\ attrib e !! k = None
            /\ copy_fields e fields acc = Raise (KeyError k).
Proof.
  induction fields as [|k fields IH]; intros acc H.
  - exfalso. apply H. constructor.
  - simpl. destruct (attrib e !! k) as [v|] eqn:Hv.
    + rewrite (getitem_Some _ _ _ Hv). simpl.
      destruct (IH (<[k := v]> acc)) as (k' & Hin & Hk & E).
      { intros H'. apply H. constructor; [rewrite Hv; eauto|exact H']. }
      exists k'. split; [right; exact Hin|]. split; [exact Hk|exact E].
    + exists k. split; [left|]. split; [exact Hv|].
      rewrite (getitem_None _ _ Hv). reflexivity.
Qed.


Lemma search_cls p k : forall prev sk,
  is_some (search_from (Cls p) prev sk k false) = existsb p k.
Proof.
  induction k as [|c k IH]; intros prev sk.
  - reflexivity.
  - simpl. unfold match_here. simpl. destruct (p c); [reflexivity|].
    apply IH.
Qed.

Lemma search_problem_chars k :
  is_some (re_search PROBLEMCHARS k) = has_problem_char k.
Proof. apply search_cls. Qed.

Lemma contains_colon_cons c k :
  contains (str ":") (c :: k) = ascii_eqb c ":"%char || contains (str ":") k.
Proof.
  change (contains (str ":") (c :: k))
    with ((ascii_eqb ":"%char c && true) || contains (str ":") k).
  rewrite andb_true_r. unfold ascii_eqb. rewrite Ascii.eqb_sym. reflexivity.
Qed.

Lemma split1_colon k :
  contains (str ":") k = true ->
  split1 ":"%char k = [before_colon k; after_colon k].
Proof.
  induction k as [|c k IH]; [discriminate|].
  rewrite contains_colon_cons. cbn -[ascii_eqb contains].
  destruct (ascii_eqb c ":"%char); [reflexivity|].
  intros H. rewrite (IH H). reflexivity.
Qed.

Lemma before_after_colon k :
  contains (str ":") k = true ->
  k = before_colon k ++ ":"%char :: after_colon k
  /\ ~ In ":"%char (before_colon k).
Proof.
  induction k as [|c k IH]; [discriminate|].
  rewrite contains_colon_cons. cbn -[ascii_eqb contains].
  destruct (ascii_eqb c ":"%char) eqn:E.
  - apply ascii_eqb_eq in E. subst. intros _. split; [reflexivity|]. intros [].
  - intros H. destruct (IH H) as [E1 E2]. split.
    + simpl. f_equal. exact E1.
    + intros [->|Hin]; [|contradiction].
      rewrite ascii_eqb_refl in E. discriminate.
Qed.

Lemma truthy_street_test key :
  truthy (py_or (PyBool (pystr_eqb key (str "street")))
                (PyStr (str "street:name"))) = true.
Proof.
  unfold py_or. cbn [truthy].
  destruct (pystr_eqb key (str "street")); reflexivity.
Qed.

Lemma shape_tag_ok attribs dt t id :
  attribs !! str "id" = Some id ->
  has_attrs [str "k"; str "v"] t ->
  shape_tag attribs PROBLEMCHARS dt t = Ok (tag_record id dt t).
Proof.
  intros Hid Hkv. unfold has_attrs in Hkv.
  apply Forall_cons in Hkv as [[k Hk] Hkv].
  apply Forall_cons in Hkv as [[v Hv] _].
  unfold shape_tag, tag_record, raw_key, raw_value, attr.
  rewrite Hk, Hv. cbn [default from_option Datatypes.id].
  rewrite (getitem_Some _ _ _ Hid). cbn [bind].
  rewrite (getitem_Some _ _ _ Hv). cbn [bind].
  rewrite (getitem_Some _ _ _ Hk). cbn [bind].
  rewrite <- search_problem_chars.
  destruct (re_search PROBLEMCHARS k); cbn [is_some]; [reflexivity|].
  destruct (contains (str ":") k) eqn:C.
  - rewrite (split1_colon _ C). cbn [index nth_error bind fst snd].
    rewrite truthy_street_test. unfold after_street, before_street.
    destruct (pystr_eqb (after_colon k) (str "postcode")); [|reflexivity].
    destruct (update_postcode _) as [[] ?]; reflexivity.
  - cbn [bind fst snd]. rewrite truthy_street_test.
    unfold after_street, before_street.
    destruct (pystr_eqb k (str "postcode")); [|reflexivity].
    destruct (update_postcode _) as [[] ?]; reflexivity.
Qed.


Lemma tag_loop_ok attribs dt id ts : forall acc,
  attribs !! str "id" = Some id ->
  Forall (has_attrs [str "k"; str "v"]) ts ->
  tag_loop attribs PROBLEMCHARS dt ts acc =
  Ok (acc ++ omap (tag_record id dt) ts).
Proof.
  induction ts as [|t ts IH]; intros acc Hid H.
  - simpl. rewrite app_nil_r. reflexivity.
  - inversion H; subst. simpl.
    rewrite (shape_tag_ok _ _ _ _ Hid) by assumption. cbn [bind].
    rewrite IH by assumption.
    destruct (tag_record id dt t); [rewrite <- app_assoc|]; reflexivity.
Qed.


Lemma nd_loop_ok attribs id nds : forall counter acc,
  attribs !! str "id" = Some id ->
  Forall (has_attrs [str "ref"]) nds ->
  nd_loop attribs nds counter acc =
  Ok (acc ++ imap (fun i nd => MkWayNode id (attr (str "ref") nd) (counter + i)) nds).
Proof.
  induction nds as [|nd nds IH]; intros counter acc Hid H.
  - simpl. rewrite app_nil_r. reflexivity.
  - apply Forall_cons in H as [Hr H']. unfold has_attrs in Hr.
    apply Forall_cons in Hr as [[r Hr'] _].
    cbn [nd_loop]. rewrite (getitem_Some _ _ _ Hid). cbn [bind].
    rewrite (getitem_Some _ _ _ Hr'). cbn [bind]. rewrite (IH _ _ Hid H'). rewrite <- app_assoc.
    do 2 f_equal. rewrite imap_cons. unfold attr at 2. rewrite Hr'.
    cbn [default from_option Datatypes.id app]. rewrite Nat.add_0_r. f_equal.
    apply imap_ext. intros i x _. simpl. f_equal. lia.
Qed.


Lemma id_in_node_fields : str "id" ∈ NODE_FIELDS.
Proof. left. Qed.

Lemma id_in_way_fields : str "id" ∈ WAY_FIELDS.
Proof. left. Qed.

Lemma has_attrs_lookup fields e f :
  has_attrs fields e -> f ∈ fields -> is_Some (attrib e !! f).
Proof. unfold has_attrs. rewrite Forall_forall. auto. Qed.

Lemma extract_node_ok e dt :
  well_formed_node e ->
  exists attribs id,
    extract_node e NODE_FIELDS PROBLEMCHARS dt =
      Ok (MkNodeResult attribs (omap (tag_record id dt) (tag_children e)))
    /\ attrib e !! str "id" = Some id
    /\ forall f, attribs !! f = if decide (f ∈ NODE_FIELDS) then attrib e !! f
                                else None.
Proof.
  intros (Ht & Ha & Hl & Hkv).
  destruct (copy_fields_ok e NODE_FIELDS ∅ Ha) as (m & E & L).
  destruct (has_attrs_lookup _ _ _ Ha id_in_node_fields) as [id Hid].
  exists m, id. split; [|split; [exact Hid|]].
  - unfold extract_node. rewrite E. cbn [bind].
    rewrite iter_children by (try assumption; rewrite Ht; discriminate).
    fold (tag_children e).
    rewrite (tag_loop_ok m dt id); [reflexivity| |assumption].
    rewrite L. rewrite decide_True by apply id_in_node_fields. exact Hid.
  - intros f. rewrite L. rewrite lookup_empty. reflexivity.
Qed.

Lemma extract_way_ok e dt :
  well_formed_way e ->
  exists attribs id,
    extract_way e WAY_FIELDS PROBLEMCHARS dt =
      Ok (MkWayResult attribs
            (imap (fun i nd => MkWayNode id (attr (str "ref") nd) i) (nd_children e))
            (omap (tag_record id dt) (tag_children e)))
    /\ attrib e !! str "id" = Some id
    /\ forall f, attribs !! f = if decide (f ∈ WAY_FIELDS) then attrib e !! f
                                else None.
Proof.
  intros (Ht & Ha & Hl & Hkv & Href).
  destruct (copy_fields_ok e WAY_FIELDS ∅ Ha) as (m & E & L).
  destruct (has_attrs_lookup _ _ _ Ha id_in_way_fields) as [id Hid].
  assert (Hm : m !! str "id" = Some id).
  { rewrite L. rewrite decide_True by apply id_in_way_fields. exact Hid. }
  exists m, id. split; [|split; [exact Hid|]].
  - unfold extract_way. rewrite E. cbn [bind].
    rewrite !iter_children by (try assumption; rewrite Ht; discriminate).
    fold (tag_children e). fold (nd_children e).
    rewrite (tag_loop_ok m dt id) by assumption. cbn [bind].
    rewrite (nd_loop_ok m id) by assumption. reflexivity.
  - intros f. rewrite L. rewrite lookup_empty. reflexivity.
Qed.



Lemma extract_element_ok e dt :
  well_formed_node e \/ well_formed_way e ->
  exists sh id,
    extract_element e dt = Ok (Some sh)
    /\ shaped_tags sh = omap (tag_record id dt) (tag_children e).
Proof.
  intros [H|H].
  - destruct (extract_node_ok e dt H) as (m & id & E & _).
    destruct H as (Ht & _). unfold extract_element.
    rewrite Ht. rewrite pystr_eqb_refl. rewrite E. cbn [bind].
    eexists _, id. split; reflexivity.
  - destruct (extract_way_ok e dt H) as (m & id & E & _).
    destruct H as (Ht & _). unfold extract_element.
    rewrite Ht. rewrite E. eexists _, id. split; reflexivity.
Qed.

Lemma Forall2_omap_kept (P : Element -> TagRecord -> Prop) id dt ts :
  (forall t rec, tag_record id dt t = Some rec -> P t rec) ->
  Forall2 P (List.filter kept ts) (omap (tag_record id dt) ts).
Proof.
  intros HP. induction ts as [|t ts IH]; [constructor|].
  cbn [List.filter omap list_omap]. 
  destruct (tag_record id dt t) as [rec|] eqn:E.
  - assert (K : kept t = true).
    { unfold tag_record in E. unfold kept.
      destruct (has_problem_char (raw_key t)); [discriminate|reflexivity]. }
    rewrite K. constructor; [apply HP; exact E|exact IH].
  - assert (K : kept t = false).
    { unfold tag_record in E. unfold kept.
      destruct (has_problem_char (raw_key t)); [reflexivity|discriminate]. }
    rewrite K. exact IH.
Qed.

Lemma contains_colon_In k : contains (str ":") k = true <-> In ":"%char k.
Proof.
  induction k as [|c k IH]; [split; [discriminate|intros []]|].
  rewrite contains_colon_cons, orb_true_iff, ascii_eqb_eq, IH. simpl.
  split; intros [H|H]; auto.
Qed.

Ltac solve_has_attrs :=
  unfold has_attrs; repeat constructor; eexists; vm_compute; reflexivity.

Lemma example_node_well_formed : well_formed_node example_node.
Proof.
  split; [reflexivity|]. split; [solve_has_attrs|].
  split; [repeat constructor|].
  vm_compute tag_children. repeat (constructor; [solve_has_attrs|]). constructor.
Qed.

Lemma example_way_well_formed : well_formed_way example_way.
Proof.
  split; [reflexivity|]. split; [solve_has_attrs|].
  split; [repeat constructor|]. split.
  - vm_compute tag_children. repeat (constructor; [solve_has_attrs|]). constructor.
  - vm_compute nd_children. repeat (constructor; [solve_has_attrs|]). constructor.
Qed.

(** C5.  For a node or a way of an OSM document, with the default tag type
    [regular]: a tag child whose raw key has a character of the forbidden
    set gives no record; every other tag child gives one record, in
    document order, whose type and key are the parts of the raw key before
    and after its first colon, or [regular] and the raw key when it has no
    colon. *)
Theorem tag_records_key_type (e : Element) :
  well_formed_node e \/ well_formed_way e ->
  exists sh,
    extract_element e (str "regular") = Ok (Some sh)
    /\ Forall2 key_type_rule
         (List.filter
            (fun t => negb (existsb (fun c => mem c forbidden) (raw_key t)))
            (tag_children e))
         (shaped_tags sh).
Proof.
  intros H. destruct (extract_element_ok e (str "regular") H) as (sh & id & E & T).
  exists sh. split; [exact E|]. rewrite T.
  change (fun t => negb (existsb (fun c => mem c forbidden) (raw_key t))) with kept.
  apply Forall2_omap_kept. intros t rec R. unfold tag_record in R.
  cbv zeta in R. destruct (has_problem_char (raw_key t)); [discriminate|].
  injection R as <-. unfold key_type_rule. cbn [tag_type tag_key].
  split.
  - intros Hin. apply contains_colon_In in Hin.
    destruct (before_after_colon _ Hin) as [E1 E2].
    change (contains [":"%char] (raw_key t) = true) in Hin. rewrite Hin.
    exists (before_colon (raw_key t)), (after_colon (raw_key t)). auto.
  - intros Hin. destruct (contains [":"%char] (raw_key t)) eqn:C; [|auto].
    apply (contains_colon_In (raw_key t)) in C. contradiction.
Qed.

Lemma tag_records_key_type_example :
  well_formed_node example_node
  /\ exists sh,
       extract_element example_node (str "regular") = Ok (Some sh)
       /\ Forall2 key_type_rule
            (List.filter
               (fun t => negb (existsb (fun c => mem c forbidden) (raw_key t)))
               (tag_children example_node))
            (shaped_tags sh).
Proof.
  split; [exact example_node_well_formed|].
  exact (tag_records_key_type example_node (or_introl example_node_well_formed)).
Defined.

(** C3.  The test on the street key is true whatever the key, and the
    value of every record of a node or of a way is the result of
    [update_street_name] on the raw value (after the city step, and before
    the postcode step, both of which leave other keys alone). *)
Theorem tag_records_street_normalised (e : Element) :
  well_formed_node e \/ well_formed_way e ->
  (forall key,
     truthy (py_or (PyBool (pystr_eqb key (str "street")))
                   (PyStr (str "street:name"))) = true)
  /\ exists sh,
       extract_element e (str "regular") = Ok (Some sh)
       /\ Forall2 street_normalised
            (List.filter
               (fun t => negb (existsb (fun c => mem c forbidden) (raw_key t)))
               (tag_children e))
            (shaped_tags sh).
Proof.
  intros H. split; [exact truthy_street_test|].
  destruct (extract_element_ok e (str "regular") H) as (sh & id & E & T).
  exists sh. split; [exact E|]. rewrite T.
  change (fun t => negb (existsb (fun c => mem c forbidden) (raw_key t))) with kept.
  apply Forall2_omap_kept. intros t rec R. unfold tag_record in R.
  cbv zeta in R. destruct (has_problem_char (raw_key t)); [discriminate|].
  injection R as <-. reflexivity.
Qed.

Lemma tag_records_street_normalised_example :
  well_formed_way example_way
  /\ (forall key,
        truthy (py_or (PyBool (pystr_eqb key (str "street")))
                      (PyStr (str "street:name"))) = true)
  /\ exists sh,
       extract_element example_way (str "regular") = Ok (Some sh)
       /\ Forall2 street_normalised
            (List.filter
               (fun t => negb (existsb (fun c => mem c forbidden) (raw_key t)))
               (tag_children example_way))
            (shaped_tags sh).
Proof.
  split; [exact example_way_well_formed|].
  exact (tag_records_street_normalised example_way
           (or_intror example_way_well_formed)).
Defined.

(** C2 fails on the code: the value of a postcode tag goes through
    [update_street_name] first, because the test on the street key is
    always true, so that the marker is put before the expanded value. *)
Theorem postcode_fixme_after_street :
  update_postcode (str "98101 NE") = (true, str "98101 NE")
  /\ (exists r,
        extract_node (example_postcode "node") NODE_FIELDS PROBLEMCHARS
          (str "regular") = Ok r
        /\ map tag_key (node_tags r) = [str "postcode"]
        /\ map tag_value (node_tags r) = [str "fixme:98101 Northeast"])
  /\ (exists r,
        extract_way (example_postcode "way") WAY_FIELDS PROBLEMCHARS
          (str "regular") = Ok r
        /\ map tag_key (way_tags r) = [str "postcode"]
        /\ map tag_value (way_tags r) = [str "fixme:98101 Northeast"]).
Proof.
  split; [reflexivity|]. split.
  - eexists. split; [vm_compute; reflexivity|]. split; reflexivity.
  - eexists. split; [vm_compute; reflexivity|]. split; reflexivity.
Qed.

(** C7.  For a way of an OSM document, [extract_way] gives one record per
    nd child, in document order: the record at index [i] has the way's
    id, the [ref] of the nd child at index [i], and the position [i]; the
    positions are 0, 1, 2, ... *)
Theorem way_nodes_in_order (e : Element) (dt : pystr) :
  well_formed_way e ->
  exists r,
    extract_way e WAY_FIELDS PROBLEMCHARS dt = Ok r
    /\ length (way_nodes r) = length (nd_children e)
    /\ (forall i nd,
          nd_children e !! i = Some nd ->
          way_nodes r !! i =
          Some (MkWayNode (attr (str "id") e) (attr (str "ref") nd) i))
    /\ map wn_position (way_nodes r) = seq 0 (length (nd_children e)).
Proof.
  intros H. destruct (extract_way_ok e dt H) as (m & id & E & Hid & _).
  eexists. split; [exact E|]. cbn [way_nodes].
  assert (Ha : attr (str "id") e = id).
  { unfold attr. rewrite Hid. reflexivity. }
  rewrite Ha. split; [apply length_imap|]. split.
  - intros i nd Hnd. rewrite list_lookup_imap, Hnd. reflexivity.
  - generalize (nd_children e). intros l.
    assert (G : forall k, map wn_position
                  (imap (fun i nd => MkWayNode id (attr (str "ref") nd) (k + i)) l)
                = seq k (length l)).
    { induction l as [|x l IH]; intros k; [reflexivity|].
      rewrite imap_cons. cbn [map length seq wn_position].
      rewrite Nat.add_0_r. f_equal. rewrite <- IH. f_equal.
      apply imap_ext. intros i y _. simpl. f_equal. lia. }
    exact (G 0).
Qed.

Lemma way_nodes_in_order_example :
  well_formed_way example_way
  /\ exists r,
       extract_way example_way WAY_FIELDS PROBLEMCHARS (str "regular") = Ok r
       /\ length (way_nodes r) = length (nd_children example_way)
       /\ (forall i nd,
             nd_children example_way !! i = Some nd ->
             way_nodes r !! i =
             Some (MkWayNode (attr (str "id") example_way) (attr (str "ref") nd) i))
       /\ map wn_position (way_nodes r) = seq 0 (length (nd_children example_way)).
Proof.
  split; [exact example_way_well_formed|].
  exact (way_nodes_in_order example_way (str "regular") example_way_well_formed).
Defined.

Lemma copy_fields_Ok e fields : forall acc m,
  copy_fields e fields acc = Ok m ->
  has_attrs fields e
  /\ forall f, m !! f = if decide (f ∈ fields) then attrib e !! f else acc !! f.
Proof.
  induction fields as [|k fields IH]; intros acc m H.
  - destruct (copy_fields_ok e [] acc) as (m' & E & L); [constructor|].
    rewrite E in H. injection H as <-. split; [constructor|exact L].
  - cbn [copy_fields] in H. unfold getitem in H.
    destruct (attrib e !! k) as [v|] eqn:Hv; [|discriminate].
    cbn [bind] in H. destruct (IH _ _ H) as [Ha _].
    assert (Ha' : has_attrs (k :: fields) e).
    { constructor; [rewrite Hv; eauto|exact Ha]. }
    split; [exact Ha'|].
    destruct (copy_fields_ok e (k :: fields) acc Ha') as (m' & E & L).
    cbn [copy_fields] in E. unfold getitem in E. rewrite Hv in E.
    cbn [bind] in E. rewrite E in H. injection H as <-. exact L.
Qed.

Lemma extract_node_attribs e fields pc dt r :
  extract_node e fields pc dt = Ok r ->
  forall f, node r !! f = if decide (f ∈ fields) then attrib e !! f else None.
Proof.
  unfold extract_node. intros H.
  destruct (copy_fields e fields ∅) as [m|] eqn:E; [|discriminate].
  cbn [bind] in H.
  destruct (tag_loop m pc dt (iter (str "tag") e) []); [|discriminate].
  injection H as <-. intros f.
  destruct (copy_fields_Ok _ _ _ _ E) as [_ L]. rewrite L, lookup_empty.
  reflexivity.
Qed.

Lemma extract_way_attribs e fields pc dt r :
  extract_way e fields pc dt = Ok r ->
  forall f, way r !! f = if decide (f ∈ fields) then attrib e !! f else None.
Proof.
  unfold extract_way. intros H.
  destruct (copy_fields e fields ∅) as [m|] eqn:E; [|discriminate].
  cbn [bind] in H.
  destruct (tag_loop m PROBLEMCHARS dt (iter (str "tag") e) []); [|discriminate].
  cbn [bind] in H.
  destruct (nd_loop m (iter (str "nd") e) 0 []); [|discriminate].
  injection H as <-. intros f.
  destruct (copy_fields_Ok _ _ _ _ E) as [_ L]. rewrite L, lookup_empty.
  reflexivity.
Qed.

Lemma extract_node_missing e fields pc dt :
  ~ has_attrs fields e ->
  exists k, k ∈ fields /\ attrib e !! k = None
            /\ extract_node e fields pc dt = Raise (KeyError k).
Proof.
  intros H. destruct (copy_fields_missing e fields ∅ H) as (k & Hin & Hk & E).
  exists k. split; [exact Hin|]. split; [exact Hk|].
  unfold extract_node. rewrite E. reflexivity.
Qed.

Lemma extract_way_missing e fields pc dt :
  ~ has_attrs fields e ->
  exists k, k ∈ fields /\ attrib e !! k = None
            /\ extract_way e fields pc dt = Raise (KeyError k).
Proof.
  intros H. destruct (copy_fields_missing e fields ∅ H) as (k & Hin & Hk & E).
  exists k. split; [exact Hin|]. split; [exact Hk|].
  unfold extract_way. rewrite E. reflexivity.
Qed.

(** C9.  [extract_node] and [extract_way] raise [KeyError] for a field of
    their field list that the element does not have, and return no
    record then; the attribute record they return has the fields of the
    list and no other, each with the value the element has for it; and
    they return one for a node, or a way, of an OSM document. *)
Theorem attributes_copied_or_error (e : Element) (dt : pystr) :
  (~ has_attrs NODE_FIELDS e ->
   exists k, k ∈ NODE_FIELDS /\ attrib e !! k = None
             /\ extract_node e NODE_FIELDS PROBLEMCHARS dt = Raise (KeyError k))
  /\ (forall r,
        extract_node e NODE_FIELDS PROBLEMCHARS dt = Ok r ->
        forall f, node r !! f =
                  if decide (f ∈ NODE_FIELDS) then attrib e !! f else None)
  /\ (well_formed_node e ->
      exists r, extract_node e NODE_FIELDS PROBLEMCHARS dt = Ok r)
  /\ (~ has_attrs WAY_FIELDS e ->
      exists k, k ∈ WAY_FIELDS /\ attrib e !! k = None
                /\ extract_way e WAY_FIELDS PROBLEMCHARS dt = Raise (KeyError k))
  /\ (forall r,
        extract_way e WAY_FIELDS PROBLEMCHARS dt = Ok r ->
        forall f, way r !! f =
                  if decide (f ∈ WAY_FIELDS) then attrib e !! f else None)
  /\ (well_formed_way e ->
      exists r, extract_way e WAY_FIELDS PROBLEMCHARS dt = Ok r).
Proof.
  split; [apply extract_node_missing|].
  split; [intros r; apply extract_node_attribs|].
  split.
  { intros H. destruct (extract_node_ok e dt H) as (m & id & E & _). eauto. }
  split; [apply extract_way_missing|].
  split; [intros r; apply extract_way_attribs|].
  intros H. destruct (extract_way_ok e dt H) as (m & id & E & _). eauto.
Qed.

Lemma example_no_uid_missing : ~ has_attrs NODE_FIELDS example_no_uid.
Proof.
  intros H. apply (has_attrs_lookup _ _ (str "uid")) in H.
  - destruct H as [v Hv]. vm_compute in Hv. discriminate.
  - vm_compute. repeat first [left; reflexivity | right]. 
Qed.

Lemma attributes_copied_or_error_example :
  (exists k, k ∈ NODE_FIELDS /\ attrib example_no_uid !! k = None
             /\ extract_node example_no_uid NODE_FIELDS PROBLEMCHARS (str "regular")
                = Raise (KeyError k))
  /\ (exists r, extract_node example_node NODE_FIELDS PROBLEMCHARS (str "regular")
                = Ok r)
  /\ (exists r, extract_way example_way WAY_FIELDS PROBLEMCHARS (str "regular")
                = Ok r).
Proof.
  split; [|split].
  - exact (proj1 (attributes_copied_or_error example_no_uid (str "regular"))
             example_no_uid_missing).
  - exact (proj1 (proj2 (proj2 (attributes_copied_or_error example_node (str "regular"))))
             example_node_well_formed).
  - exact (proj2 (proj2 (proj2 (proj2 (proj2
             (attributes_copied_or_error example_way (str "regular"))))))
             example_way_well_formed).
Defined.





(** The scenario of the specification: the node with the postcode tag
    gives one row of the nodes file and one row of the tags file; the two
    header rows come first. *)
Example process_map_scenario :
  let n := MkElement (str "node") (attrib example_node)
             [example_tag "addr:postcode" "98199"] in
  let t := fst (process_map (fun _ => true)
                  [(EvStart, MkElement (str "osm") ∅ [n]);
                   (EvStart, n);
                   (EvStart, example_tag "addr:postcode" "98199");
                   (EvEnd, example_tag "addr:postcode" "98199");
                   (EvEnd, n);
                   (EvEnd, MkElement (str "osm") ∅ [n])] true) in
  nodes_file t =
    [header NODE_FIELDS;
     map CStr [str "1"; str "47.1"; str "-122.3"; str "u"; str "2"; str "1";
               str "3"; str "t"]]
  /\ nodes_tags_file t =
     [header NODE_TAGS_FIELDS;
      map CStr [str "1"; str "postcode"; str "98199"; str "addr"]].
Proof. vm_compute. split; reflexivity. Qed.

(** * Further properties *)

(** ** Postcodes *)

Lemma five_digits_take s : five_digits s = true -> take 5 s = s.
Proof.
  unfold five_digits. intros H. apply andb_true_iff in H. destruct H as [H _].
  apply Nat.eqb_eq in H. apply take_ge. lia.
Qed.

Lemma zip_format_take s : zip_format s = true -> five_digits (take 5 s) = true.
Proof.
  unfold zip_format. intros H. apply orb_true_iff in H. destruct H as [H|H].
  - rewrite (five_digits_take _ H). exact H.
  - apply andb_true_iff in H. tauto.
Qed.

Lemma rev_cons_snoc (s r : pystr) c : rev s = c :: r -> s = rev r ++ [c].
Proof.
  intros H. rewrite <- (rev_involutive s), H. reflexivity.
Qed.

Lemma postcode_format_take s :
  postcode_format s = true -> five_digits (take 5 s) = true.
Proof.
  unfold postcode_format. intros H. apply orb_true_iff in H.
  destruct H as [H|H]; [apply zip_format_take; exact H|].
  destruct (rev s) as [|c r] eqn:E; [discriminate|].
  apply andb_true_iff in H. destruct H as [_ H].
  apply rev_cons_snoc in E. subst s.
  pose proof (zip_format_length _ H) as L.
  rewrite take_app_le by lia. apply zip_format_take. exact H.
Qed.

Lemma five_digits_format s : five_digits s = true -> postcode_format s = true.
Proof.
  intros H. unfold postcode_format, zip_format. rewrite H. reflexivity.
Qed.

(** X1.  When [update_postcode] reports a valid postcode, what it returns
    is exactly five digits. *)
Theorem update_postcode_valid_five_digits (code : pystr) :
  fst (update_postcode code) = false ->
  five_digits (snd (update_postcode code)) = true.
Proof.
  rewrite update_postcode_format.
  destruct (postcode_format code) eqn:F; [|discriminate].
  intros _. apply postcode_format_take. exact F.
Qed.

Lemma update_postcode_valid_five_digits_example :
  fst (update_postcode (str "98199-1234")) = false
  /\ five_digits (snd (update_postcode (str "98199-1234"))) = true.
Proof.
  split; [reflexivity|].
  exact (update_postcode_valid_five_digits (str "98199-1234") eq_refl).
Defined.

(** X2.  [update_postcode] on the value it returned gives the same
    result again: a truncated postcode is valid, a refused one is still
    refused. *)
Theorem update_postcode_idempotent (code : pystr) :
  update_postcode (snd (update_postcode code)) = update_postcode code.
Proof.
  rewrite (update_postcode_format code).
  destruct (postcode_format code) eqn:F; cbn [snd].
  - pose proof (postcode_format_take _ F) as D.
    rewrite update_postcode_format, (five_digits_format _ D).
    rewrite (five_digits_take _ D). reflexivity.
  - rewrite update_postcode_format, F. reflexivity.
Qed.

(** ** City names *)

Lemma words_of_ok s ws : words_of s ws -> Forall is_word_of_split ws.
Proof.
  induction 1; auto; constructor; auto; split; auto.
Qed.

Lemma split_ws_aux_run w : forall cur rest,
  Forall (fun c => is_space c = false) w ->
  split_ws_aux cur (w ++ rest) = split_ws_aux (rev w ++ cur) rest.
Proof.
  induction w as [|c w IH]; intros cur rest H; [reflexivity|].
  apply Forall_cons in H as [Hc H]. simpl. rewrite Hc, (IH _ _ H).
  rewrite <- app_assoc. reflexivity.
Qed.

Lemma split_ws_join ws :
  Forall is_word_of_split ws -> split_ws (join (str " ") ws) = ws.
Proof.
  unfold split_ws. induction 1 as [|w ws [Hne Hw] Hws IH]; [reflexivity|].
  assert (R : exists c r, rev w ++ [] = c :: r).
  { rewrite app_nil_r. destruct (rev w) as [|c r] eqn:E; [|eauto].
    exfalso. apply Hne. rewrite <- (rev_involutive w), E. reflexivity. }
  destruct R as (c & r & R).
  assert (W : rev (c :: r) = w).
  { rewrite <- R, app_nil_r. apply rev_involutive. }
  destruct ws as [|w2 ws].
  - cbn [join]. rewrite <- (app_nil_r w) at 1.
    rewrite (split_ws_aux_run _ _ _ Hw), R. cbn [split_ws_aux]. rewrite W.
    reflexivity.
  - change (join (str " ") (w :: w2 :: ws))
      with (w ++ " "%char :: join (str " ") (w2 :: ws)).
    rewrite (split_ws_aux_run _ _ _ Hw), R.
    change (split_ws_aux (c :: r) (" "%char :: join (str " ") (w2 :: ws)))
      with (rev (c :: r) :: split_ws_aux [] (join (str " ") (w2 :: ws))).
    rewrite W, IH. reflexivity.
Qed.

Lemma upper_not_space c : is_space c = false -> is_space (upper c) = false.
Proof. all_chars c. Qed.

Lemma lower_not_space c : is_space c = false -> is_space (lower c) = false.
Proof. all_chars c. Qed.

Lemma capitalize_word w : is_word_of_split w -> is_word_of_split (capitalize w).
Proof.
  intros [Hne Hw]. destruct w as [|c w]; [contradiction|].
  apply Forall_cons in Hw as [Hc Hw]. split; [discriminate|].
  cbn [capitalize]. constructor; [apply upper_not_space; exact Hc|].
  apply Forall_forall. intros x Hx. apply list_elem_of_In in Hx.
  apply in_map_iff in Hx. destruct Hx as (y & <- & Hy).
  apply lower_not_space. rewrite Forall_forall in Hw. apply Hw.
  apply list_elem_of_In. exact Hy.
Qed.

(** X3.  What [update_city_name] returns has no whitespace at its ends
    and single spaces between its words: splitting it at whitespace and
    joining the words with one space gives it back. *)
Theorem update_city_name_single_spaces (name : pystr) :
  join (str " ") (split_ws (update_city_name name)) = update_city_name name.
Proof.
  unfold update_city_name. cbv zeta.
  set (n := if truthy _ then _ else _). unfold capwords.
  rewrite split_ws_join; [reflexivity|].
  pose proof (words_of_ok _ _ (split_ws_words n)) as H.
  induction H as [|w ws Hw _ IH]; [constructor|].
  cbn [map]. constructor; [apply capitalize_word; exact Hw|exact IH].
Qed.

(** ** Street names *)

Lemma lookup_key_NoDup g e m :
  NoDup (keys m) -> In (g, e) m -> lookup_key g m = Some e.
Proof.
  induction m as [|[k v] m IH]; intros Hnd Hin; [destruct Hin|].
  cbn [keys map fst] in Hnd. apply NoDup_cons in Hnd as [Hk Hnd].
  cbn [lookup_key]. destruct Hin as [Hin|Hin].
  - injection Hin as -> ->. rewrite pystr_eqb_refl. reflexivity.
  - destruct (pystr_eqb g k) eqn:E.
    + apply pystr_eqb_eq in E. subst k. exfalso. apply Hk.
      apply list_elem_of_In. unfold keys. apply (in_map fst _ _ Hin).
    + apply IH; assumption.
Qed.

(** X4.  For every mapping with distinct keys, whose values have no
    backslash: [update_street_name] replaces the street type of the name
    with the value the mapping has for it, and returns the name unchanged
    when the name has no street type or the mapping has no such key. *)
Theorem update_street_name_any_mapping (name : pystr) (m : list (pystr * pystr)) :
  NoDup (keys m) ->
  Forall (fun kv => ~ In "\"%char (snd kv)) m ->
  (forall pre g post e,
     street_type_at name pre g post -> In (g, e) m ->
     update_street_name name m = pre ++ e ++ post)
  /\ ((forall pre g post,
         street_type_at name pre g post -> ~ In g (keys m)) ->
      update_street_name name m = name).
Proof.
  intros Hnd _. split.
  - intros pre g post e H Hin.
    rewrite (update_street_name_found _ _ _ _ _ H).
    rewrite (lookup_key_NoDup _ _ _ Hnd Hin).
    assert (K : in_list g (keys m) = true).
    { apply in_list_In. unfold keys. apply (in_map fst _ _ Hin). }
    rewrite K. reflexivity.
  - intros H. destruct (re_search street_type_re name) as [mt|] eqn:E.
    + apply re_search_street in E.
      rewrite (update_street_name_found _ _ _ _ _ E).
      destruct (in_list (m_group mt) (keys m)) eqn:K; [|reflexivity].
      apply in_list_In in K. exfalso. exact (H _ _ _ E K).
    + apply update_street_name_none. exact E.
Qed.

Lemma update_street_name_any_mapping_example :
  NoDup (keys [(str "Blvd", str "Boulevard")])
  /\ Forall (fun kv => ~ In "\"%char (snd kv)) [(str "Blvd", str "Boulevard")]
  /\ (forall pre g post e,
        street_type_at (str "Sunset Blvd") pre g post ->
        In (g, e) [(str "Blvd", str "Boulevard")] ->
        update_street_name (str "Sunset Blvd") [(str "Blvd", str "Boulevard")]
        = pre ++ e ++ post)
  /\ ((forall pre g post,
         street_type_at (str "Sunset Blvd") pre g post ->
         ~ In g (keys [(str "Blvd", str "Boulevard")])) ->
      update_street_name (str "Sunset Blvd") [(str "Blvd", str "Boulevard")]
      = str "Sunset Blvd").
Proof.
  assert (H1 : NoDup (keys [(str "Blvd", str "Boulevard")])).
  { apply NoDup_singleton. }
  assert (H2 : Forall (fun kv => ~ In "\"%char (snd kv))
                 [(str "Blvd", str "Boulevard")]).
  { constructor; [|constructor]. cbn. intuition discriminate. }
  split; [exact H1|]. split; [exact H2|].
  exact (update_street_name_any_mapping (str "Sunset Blvd")
           [(str "Blvd", str "Boulevard")] H1 H2).
Defined.

Lemma digit_word c : is_digit c = true -> is_word c = true.
Proof. all_chars c. Qed.

Lemma hyphen_or_space_not_word c :
  ascii_eqb c "-"%char || is_space c = true -> is_word c = false.
Proof. all_chars c. Qed.

Lemma forallb_digits_words s :
  forallb is_digit s = true ->
  Forall (fun c => is_word c = true -> is_digit c = true) s.
Proof.
  intros H. apply Forall_forall. intros c Hc _.
  rewrite forallb_forall in H. apply H. apply list_elem_of_In. exact Hc.
Qed.

(** In a valid postcode the only word characters are digits. *)
Lemma zip_format_words s :
  zip_format s = true ->
  Forall (fun c => is_word c = true -> is_digit c = true) s.
Proof.
  unfold zip_format, five_digits, four_digits. intros H.
  apply orb_true_iff in H. destruct H as [H|H].
  - apply andb_true_iff in H. destruct H as [_ H].
    apply forallb_digits_words. exact H.
  - apply andb_true_iff in H. destruct H as [H1 H2].
    apply andb_true_iff in H1. destruct H1 as [_ H1].
    rewrite <- (take_drop 5 s).
    destruct (drop 5 s) as [|sep ext]; [discriminate|].
    apply andb_true_iff in H2. destruct H2 as [Hs H2].
    apply andb_true_iff in H2. destruct H2 as [_ H2].
    apply Forall_app. split; [apply forallb_digits_words; exact H1|].
    constructor; [|apply forallb_digits_words; exact H2].
    intros W. rewrite (hyphen_or_space_not_word _ Hs) in W. discriminate.
Qed.

Lemma postcode_format_words s :
  postcode_format s = true ->
  Forall (fun c => is_word c = true -> is_digit c = true) s.
Proof.
  unfold postcode_format. intros H. apply orb_true_iff in H.
  destruct H as [H|H]; [apply zip_format_words; exact H|].
  destruct (rev s) as [|c r] eqn:E; [discriminate|].
  apply andb_true_iff in H. destruct H as [Hc H].
  apply rev_cons_snoc in E. subst s. apply ascii_eqb_eq in Hc. subst c.
  apply Forall_app. split; [apply zip_format_words; exact H|].
  constructor; [|constructor]. intros W. vm_compute in W. discriminate.
Qed.

(** A key and an expansion of [mapping] start with a letter. *)
Lemma mapping_letters g e :
  In (g, e) mapping ->
  (exists c g', g = c :: g' /\ is_digit c = false)
  /\ (exists c e', e = c :: e' /\ is_word c = true /\ is_digit c = false).
Proof.
  intros H. unfold mapping in H. simpl in H.
  repeat (destruct H as [H|H];
          [inversion H; subst; split; eexists _, _; repeat split; reflexivity|]).
  contradiction.
Qed.

Lemma in_keys_entry g (m : list (pystr * pystr)) :
  In g (keys m) -> exists e, In (g, e) m.
Proof.
  unfold keys. intros H. apply in_map_iff in H.
  destruct H as ([k v] & <- & H). eauto.
Qed.

Lemma update_street_name_postcode_fixed (code : pystr) :
  postcode_format code = true ->
  update_street_name code mapping = code.
Proof.
  intros F. destruct (re_search street_type_re code) as [m|] eqn:E.
  2:{ apply update_street_name_none. exact E. }
  apply re_search_street in E.
  rewrite (update_street_name_found _ _ _ _ _ E).
  destruct (in_list (m_group m) (keys mapping)) eqn:K; [|reflexivity].
  exfalso. apply in_list_In in K. apply in_keys_entry in K.
  destruct K as [e K]. destruct (mapping_letters _ _ K) as [(c & g' & G & D) _].
  destruct E as (N & _ & (c' & g'' & G' & W) & _).
  rewrite G in G'. injection G' as <- <-.
  pose proof (postcode_format_words _ F) as A. rewrite N, G in A.
  apply Forall_app in A. destruct A as [_ A].
  apply Forall_app in A. destruct A as [A _].
  apply Forall_cons in A as [A _]. rewrite (A W) in D. discriminate.
Qed.

(** X5.  [update_street_name] with the module's mapping leaves every
    valid postcode as it is. *)
Theorem update_street_name_valid_postcode (code : pystr) :
  postcode_format code = true ->
  update_street_name code mapping = code.
Proof. apply update_street_name_postcode_fixed. Qed.

Lemma update_street_name_valid_postcode_example :
  postcode_format (str "98199 1234") = true
  /\ update_street_name (str "98199 1234") mapping = str "98199 1234".
Proof.
  split; [reflexivity|].
  exact (update_street_name_valid_postcode (str "98199 1234") eq_refl).
Defined.

(** A string that is not a valid postcode is not one after
    [update_street_name] either. *)
Lemma update_street_name_invalid_postcode code :
  postcode_format code = false ->
  postcode_format (update_street_name code mapping) = false.
Proof.
  intros F. destruct (re_search street_type_re code) as [m|] eqn:E.
  2:{ rewrite (update_street_name_none _ _ E). exact F. }
  apply re_search_street in E.
  rewrite (update_street_name_found _ _ _ _ _ E).
  destruct (in_list (m_group m) (keys mapping)) eqn:K; [|exact F].
  destruct (lookup_key (m_group m) mapping) as [e|] eqn:L; [|exact F].
  apply lookup_key_In in L.
  destruct (mapping_letters _ _ L) as [_ (c & e' & -> & W & D)].
  apply not_true_is_false. intros V.
  apply postcode_format_words in V.
  apply Forall_app in V. destruct V as [_ V].
  apply Forall_app in V. destruct V as [V _].
  apply Forall_cons in V as [V _]. rewrite (V W) in D. discriminate.
Qed.

(** ** The records of the tag children *)

Lemma extract_element_records e dt :
  well_formed_node e \/ well_formed_way e ->
  exists sh,
    extract_element e dt = Ok (Some sh)
    /\ shaped_tags sh = omap (tag_record (attr (str "id") e) dt) (tag_children e).
Proof.
  intros [H|H].
  - destruct (extract_node_ok e dt H) as (m & id & E & Hid & _).
    destruct H as (Ht & _). unfold extract_element.
    rewrite Ht, pystr_eqb_refl, E. cbn [bind].
    eexists. split; [reflexivity|]. unfold attr. rewrite Hid. reflexivity.
  - destruct (extract_way_ok e dt H) as (m & id & E & Hid & _).
    destruct H as (Ht & _). unfold extract_element.
    rewrite Ht, E. eexists. split; [reflexivity|].
    unfold attr. rewrite Hid. reflexivity.
Qed.

Lemma Forall_omap_record (P : TagRecord -> Prop) id dt ts :
  (forall t rec, tag_record id dt t = Some rec -> P rec) ->
  Forall P (omap (tag_record id dt) ts).
Proof.
  intros HP. induction ts as [|t ts IH]; [constructor|].
  cbn [omap list_omap]. destruct (tag_record id dt t) as [rec|] eqn:E.
  - constructor; [apply (HP t); exact E|exact IH].
  - exact IH.
Qed.

(** X6.  For a node or a way of an OSM document, the record of a tag
    child whose key is [postcode] has the first five characters of the
    raw value when that value is a valid postcode, and otherwise the
    marker [fixme:] before the raw value as [update_street_name] leaves
    it. *)
Theorem tag_records_postcode (e : Element) :
  well_formed_node e \/ well_formed_way e ->
  exists sh,
    extract_element e (str "regular") = Ok (Some sh)
    /\ Forall2 postcode_value_rule
         (List.filter
            (fun t => negb (existsb (fun c => mem c forbidden) (raw_key t)))
            (tag_children e))
         (shaped_tags sh).
Proof.
  intros H. destruct (extract_element_records e (str "regular") H) as (sh & E & T).
  exists sh. split; [exact E|]. rewrite T.
  change (fun t => negb (existsb (fun c => mem c forbidden) (raw_key t))) with kept.
  apply Forall2_omap_kept. intros t rec R. unfold tag_record in R.
  cbv zeta in R. destruct (has_problem_char (raw_key t)); [discriminate|].
  injection R as <-. unfold postcode_value_rule. cbn [tag_key tag_value].
  intros K. rewrite K. unfold before_street, after_street.
  change (pystr_eqb (str "postcode") (str "city")) with false.
  rewrite pystr_eqb_refl. cbv iota.
  destruct (postcode_format (raw_value t)) eqn:F.
  - rewrite (update_street_name_postcode_fixed _ F).
    rewrite update_postcode_format, F. reflexivity.
  - rewrite update_postcode_format.
    rewrite (update_street_name_invalid_postcode _ F). reflexivity.
Qed.

Lemma tag_records_postcode_example :
  well_formed_node example_node
  /\ exists sh,
       extract_element example_node (str "regular") = Ok (Some sh)
       /\ Forall2 postcode_value_rule
            (List.filter
               (fun t => negb (existsb (fun c => mem c forbidden) (raw_key t)))
               (tag_children example_node))
            (shaped_tags sh).
Proof.
  split; [exact example_node_well_formed|].
  exact (tag_records_postcode example_node (or_introl example_node_well_formed)).
Defined.

(** X7.  For a node or a way of an OSM document, every tag record has the
    id of the element. *)
Theorem tag_records_id (e : Element) (dt : pystr) :
  well_formed_node e \/ well_formed_way e ->
  exists sh,
    extract_element e dt = Ok (Some sh)
    /\ Forall (fun rec => tag_id rec = attr (str "id") e) (shaped_tags sh).
Proof.
  intros H. destruct (extract_element_records e dt H) as (sh & E & T).
  exists sh. split; [exact E|]. rewrite T.
  apply Forall_omap_record. intros t rec R. unfold tag_record in R.
  cbv zeta in R. destruct (has_problem_char (raw_key t)); [discriminate|].
  injection R as <-. reflexivity.
Qed.

Lemma tag_records_id_example :
  well_formed_way example_way
  /\ exists sh,
       extract_element example_way (str "regular") = Ok (Some sh)
       /\ Forall (fun rec => tag_id rec = attr (str "id") example_way)
            (shaped_tags sh).
Proof.
  split; [exact example_way_well_formed|].
  exact (tag_records_id example_way (str "regular")
           (or_intror example_way_well_formed)).
Defined.

Lemma has_problem_char_app a b :
  has_problem_char (a ++ b) = has_problem_char a || has_problem_char b.
Proof. unfold has_problem_char. apply existsb_app. Qed.

Lemma has_problem_char_parts a c b :
  has_problem_char (a ++ c :: b) = false ->
  has_problem_char a = false /\ has_problem_char b = false.
Proof.
  rewrite has_problem_char_app. intros H. apply orb_false_iff in H.
  destruct H as [Ha H]. split; [exact Ha|].
  change (c :: b) with ([c] ++ b) in H. rewrite has_problem_char_app in H.
  apply orb_false_iff in H. tauto.
Qed.

(** X8.  For a node or a way of an OSM document, with the default tag
    type [regular], no key and no type of a tag record has a character
    of the forbidden set, and no type has a colon. *)
Theorem tag_records_clean (e : Element) :
  well_formed_node e \/ well_formed_way e ->
  exists sh,
    extract_element e (str "regular") = Ok (Some sh)
    /\ Forall clean_key_type (shaped_tags sh).
Proof.
  intros H. destruct (extract_element_records e (str "regular") H) as (sh & E & T).
  exists sh. split; [exact E|]. rewrite T.
  apply Forall_omap_record. intros t rec R. unfold tag_record in R.
  cbv zeta in R. destruct (has_problem_char (raw_key t)) eqn:P; [discriminate|].
  injection R as <-. unfold clean_key_type. cbn [tag_key tag_type].
  destruct (contains [":"%char] (raw_key t)) eqn:C.
  - destruct (before_after_colon (raw_key t) C) as [S N].
    rewrite S in P. apply has_problem_char_parts in P. tauto.
  - split; [exact P|]. split; [reflexivity|].
    cbn. intuition discriminate.
Qed.

Lemma tag_records_clean_example :
  well_formed_node example_node
  /\ exists sh,
       extract_element example_node (str "regular") = Ok (Some sh)
       /\ Forall clean_key_type (shaped_tags sh).
Proof.
  split; [exact example_node_well_formed|].
  exact (tag_records_clean example_node (or_introl example_node_well_formed)).
Defined.

(** ** Children without their attributes *)

Lemma copy_fields_id e fields m :
  copy_fields e fields ∅ = Ok m -> str "id" ∈ fields ->
  exists id, m !! str "id" = Some id.
Proof.
  intros E Hin. destruct (copy_fields_Ok _ _ _ _ E) as [Ha L].
  destruct (has_attrs_lookup _ _ _ Ha Hin) as [id Hid].
  exists id. rewrite L, decide_True by exact Hin. exact Hid.
Qed.

Lemma tag_loop_missing attribs dt id ts1 t ts2 : forall acc,
  attribs !! str "id" = Some id ->
  Forall (has_attrs [str "k"; str "v"]) ts1 ->
  ~ has_attrs [str "k"; str "v"] t ->
  tag_loop attribs PROBLEMCHARS dt (ts1 ++ t :: ts2) acc =
  Raise (KeyError (match attrib t !! str "v" with
                   | None => str "v"
                   | Some _ => str "k"
                   end)).
Proof.
  induction ts1 as [|t1 ts1 IH]; intros acc Hid H1 Ht.
  - cbn [app tag_loop]. unfold shape_tag.
    rewrite (getitem_Some _ _ _ Hid). cbn [bind]. unfold getitem.
    destruct (attrib t !! str "v") as [v|] eqn:Hv; [|reflexivity].
    cbn [bind]. destruct (attrib t !! str "k") as [k|] eqn:Hk; [|reflexivity].
    exfalso. apply Ht. unfold has_attrs.
    constructor; [rewrite Hk; eauto|]. constructor; [rewrite Hv; eauto|constructor].
  - apply Forall_cons in H1 as [Hok H1]. cbn [app tag_loop].
    rewrite (shape_tag_ok _ _ _ _ Hid Hok). cbn [bind]. apply IH; assumption.
Qed.

(** X9.  When the fields of the node (of the way) are there and a tag
    below it lacks [v] or [k], [extract_node] ([extract_way]) raises
    [KeyError] for the first such tag in document order: for [v] when it
    lacks [v], whatever its key, and for [k] otherwise. *)
Theorem tag_without_attribute (e : Element) (dt : pystr) (ts1 ts2 : list Element)
    (t : Element) :
  iter (str "tag") e = ts1 ++ t :: ts2 ->
  Forall (has_attrs [str "k"; str "v"]) ts1 ->
  ~ has_attrs [str "k"; str "v"] t ->
  (has_attrs NODE_FIELDS e ->
   extract_node e NODE_FIELDS PROBLEMCHARS dt =
   Raise (KeyError (match attrib t !! str "v" with
                    | None => str "v"
                    | Some _ => str "k"
                    end)))
  /\ (has_attrs WAY_FIELDS e ->
      extract_way e WAY_FIELDS PROBLEMCHARS dt =
      Raise (KeyError (match attrib t !! str "v" with
                       | None => str "v"
                       | Some _ => str "k"
                       end))).
Proof.
  intros Hi H1 Ht. split; intros Ha.
  - destruct (copy_fields_ok e NODE_FIELDS ∅ Ha) as (m & E & _).
    destruct (copy_fields_id _ _ _ E id_in_node_fields) as [id Hid].
    unfold extract_node. rewrite E. cbn [bind]. rewrite Hi.
    rewrite (tag_loop_missing m dt id) by assumption. reflexivity.
  - destruct (copy_fields_ok e WAY_FIELDS ∅ Ha) as (m & E & _).
    destruct (copy_fields_id _ _ _ E id_in_way_fields) as [id Hid].
    unfold extract_way. rewrite E. cbn [bind]. rewrite Hi.
    rewrite (tag_loop_missing m dt id) by assumption. reflexivity.
Qed.

Lemma example_tag_without_v_tag :
  ~ has_attrs [str "k"; str "v"]
      (MkElement (str "tag") (attrs_of [("k", "bad key")]%string) []).
Proof.
  intros H. apply (has_attrs_lookup _ _ (str "v")) in H.
  - destruct H as [v Hv]. vm_compute in Hv. discriminate.
  - right. left.
Qed.

Lemma tag_without_attribute_example :
  has_attrs NODE_FIELDS example_tag_without_v
  /\ extract_node example_tag_without_v NODE_FIELDS PROBLEMCHARS (str "regular")
     = Raise (KeyError (str "v")).
Proof.
  assert (Ha : has_attrs NODE_FIELDS example_tag_without_v) by solve_has_attrs.
  split; [exact Ha|].
  exact (proj1 (tag_without_attribute example_tag_without_v (str "regular") []
                  [] (MkElement (str "tag") (attrs_of [("k", "bad key")]%string) [])
                  eq_refl (Forall_nil_2 _) example_tag_without_v_tag) Ha).
Defined.

Lemma nd_loop_missing attribs id n1 nd n2 : forall counter acc,
  attribs !! str "id" = Some id ->
  Forall (has_attrs [str "ref"]) n1 ->
  attrib nd !! str "ref" = None ->
  nd_loop attribs (n1 ++ nd :: n2) counter acc = Raise (KeyError (str "ref")).
Proof.
  induction n1 as [|x n1 IH]; intros counter acc Hid H1 Hnd.
  - cbn [app nd_loop]. rewrite (getitem_Some _ _ _ Hid). cbn [bind].
    rewrite (getitem_None _ _ Hnd). reflexivity.
  - apply Forall_cons in H1 as [Hx H1]. unfold has_attrs in Hx.
    apply Forall_cons in Hx as [[r Hr] _]. cbn [app nd_loop].
    rewrite (getitem_Some _ _ _ Hid). cbn [bind].
    rewrite (getitem_Some _ _ _ Hr). cbn [bind]. apply IH; assumption.
Qed.

(** X10.  When the fields of the way are there and its tags have [k] and
    [v], an nd below it without [ref] makes [extract_way] raise
    [KeyError] for [ref]: no node record is returned, not even those of
    the nd children before it. *)
Theorem nd_without_ref (e : Element) (dt : pystr) (n1 n2 : list Element)
    (nd : Element) :
  has_attrs WAY_FIELDS e ->
  Forall (has_attrs [str "k"; str "v"]) (iter (str "tag") e) ->
  iter (str "nd") e = n1 ++ nd :: n2 ->
  Forall (has_attrs [str "ref"]) n1 ->
  attrib nd !! str "ref" = None ->
  extract_way e WAY_FIELDS PROBLEMCHARS dt = Raise (KeyError (str "ref")).
Proof.
  intros Ha Ht Hi H1 Hnd.
  destruct (copy_fields_ok e WAY_FIELDS ∅ Ha) as (m & E & _).
  destruct (copy_fields_id _ _ _ E id_in_way_fields) as [id Hid].
  unfold extract_way. rewrite E. cbn [bind].
  rewrite (tag_loop_ok m dt id) by assumption. cbn [bind]. rewrite Hi.
  rewrite (nd_loop_missing m id) by assumption. reflexivity.
Qed.

Lemma nd_without_ref_example :
  has_attrs WAY_FIELDS example_nd_without_ref
  /\ extract_way example_nd_without_ref WAY_FIELDS PROBLEMCHARS (str "regular")
     = Raise (KeyError (str "ref")).
Proof.
  assert (Ha : has_attrs WAY_FIELDS example_nd_without_ref) by solve_has_attrs.
  split; [exact Ha|].
  refine (nd_without_ref example_nd_without_ref (str "regular")
            [example_nd "10"] [] (MkElement (str "nd") ∅ []) Ha _ eq_refl _ eq_refl).
  - vm_compute. constructor.
  - constructor; [solve_has_attrs|constructor].
Defined.

(** ** The driver *)

Lemma writerow_attribs (fields : list pystr) (e : Element) (m : gmap pystr pystr) :
  (forall f, m !! f = if decide (f ∈ fields) then attrib e !! f else None) ->
  writerow_dict fields m = Ok (attribute_row fields e).
Proof.
  intros L. unfold writerow_dict. rewrite bool_decide_eq_true_2.
  - f_equal. unfold attribute_row. apply map_ext_in. intros f Hf.
    unfold attr. rewrite L, decide_True by (apply list_elem_of_In; exact Hf).
    reflexivity.
  - intros f Hf. apply elem_of_dom in Hf. rewrite L in Hf.
    destruct (decide (f ∈ fields)) as [Hin|_].
    + apply elem_of_list_to_set. exact Hin.
    + destruct Hf as [x Hx]. discriminate.
Qed.

(** X11.  For a node of an OSM document that the validator accepts (or
    without validation) the driver adds to the nodes file one row, the
    values of the node's attributes in the order of [NODE_FIELDS], and to
    the node tags file the rows of the node's tag records; it leaves the
    three files of the ways as they are. *)
Theorem process_element_node (e : Element) :
  well_formed_node e ->
  exists sh,
    extract_element e (str "regular") = Ok (Some sh)
    /\ forall validator validate t,
         (validate = true -> validator sh = true) ->
         process_element validator validate t e =
         Ok (MkTables (nodes_file t ++ [attribute_row NODE_FIELDS e])
               (nodes_tags_file t ++ map row_of_tag (shaped_tags sh))
               (ways_file t) (way_nodes_file t) (way_tags_file t)).
Proof.
  intros H. destruct (extract_node_ok e (str "regular") H) as (m & id & E & _ & L).
  destruct H as (Ht & _).
  assert (EE : extract_element e (str "regular") =
               Ok (Some (ShapedNode
                  (MkNodeResult m
                     (omap (tag_record id (str "regular")) (tag_children e)))))).
  { unfold extract_element. rewrite Ht, pystr_eqb_refl, E. reflexivity. }
  eexists. split; [exact EE|]. intros validator validate t V.
  unfold process_element. rewrite EE. cbn [bind].
  assert (VV : (if validate then validate_element validator
                   (ShapedNode (MkNodeResult m
                      (omap (tag_record id (str "regular")) (tag_children e))))
                else Ok tt) = Ok tt).
  { destruct validate; [|reflexivity]. unfold validate_element.
    rewrite (V eq_refl). reflexivity. }
  rewrite VV. cbn [bind]. rewrite Ht, pystr_eqb_refl. cbn [node node_tags].
  rewrite (writerow_attribs NODE_FIELDS e m L). reflexivity.
Qed.

Lemma process_element_node_example :
  well_formed_node example_node
  /\ exists sh,
       extract_element example_node (str "regular") = Ok (Some sh)
       /\ forall validator validate t,
            (validate = true -> validator sh = true) ->
            process_element validator validate t example_node =
            Ok (MkTables (nodes_file t ++ [attribute_row NODE_FIELDS example_node])
                  (nodes_tags_file t ++ map row_of_tag (shaped_tags sh))
                  (ways_file t) (way_nodes_file t) (way_tags_file t)).
Proof.
  split; [exact example_node_well_formed|].
  exact (process_element_node example_node example_node_well_formed).
Defined.

(** X12.  For a way of an OSM document that the validator accepts (or
    without validation) the driver adds to the ways file one row, the
    values of the way's attributes in the order of [WAY_FIELDS], to the
    way nodes file one row per nd child (the way's id, the [ref], the
    index), and to the way tags file the rows of the way's tag records; it
    leaves the two files of the nodes as they are. *)
Theorem process_element_way (e : Element) :
  well_formed_way e ->
  exists sh,
    extract_element e (str "regular") = Ok (Some sh)
    /\ forall validator validate t,
         (validate = true -> validator sh = true) ->
         process_element validator validate t e =
         Ok (MkTables (nodes_file t) (nodes_tags_file t)
               (ways_file t ++ [attribute_row WAY_FIELDS e])
               (way_nodes_file t ++
                imap (fun i nd => [CStr (attr (str "id") e);
                                   CStr (attr (str "ref") nd); CInt i])
                  (nd_children e))
               (way_tags_file t ++ map row_of_tag (shaped_tags sh))).
Proof.
  intros H. destruct (extract_way_ok e (str "regular") H) as (m & id & E & Hid & L).
  destruct H as (Ht & _).
  set (r := MkWayResult m
              (imap (fun i nd => MkWayNode id (attr (str "ref") nd) i) (nd_children e))
              (omap (tag_record id (str "regular")) (tag_children e))) in *.
  assert (EE : extract_element e (str "regular") = Ok (Some (ShapedWay r))).
  { unfold extract_element. rewrite Ht, E. reflexivity. }
  eexists. split; [exact EE|]. intros validator validate t V.
  unfold process_element. rewrite EE. cbn [bind].
  assert (VV : (if validate then validate_element validator (ShapedWay r)
                else Ok tt) = Ok tt).
  { destruct validate; [|reflexivity]. unfold validate_element.
    rewrite (V eq_refl). reflexivity. }
  rewrite VV. cbn [bind]. rewrite Ht.
  change (pystr_eqb (str "way") (str "node")) with false.
  rewrite pystr_eqb_refl. cbv iota.
  rewrite (writerow_attribs WAY_FIELDS e (way r) L). cbn [bind].
  unfold r. cbn [way_nodes way_tags shaped_tags].
  do 3 f_equal. unfold attr at 2. rewrite Hid. cbn [default from_option Datatypes.id].
  generalize (nd_children e). intros l. clear.
  assert (G : forall k,
            map row_of_way_node
              (imap (fun i nd => MkWayNode id (attr (str "ref") nd) (k + i)) l)
            = imap (fun i nd => [CStr id; CStr (attr (str "ref") nd); CInt (k + i)]) l).
  { induction l as [|x l IH]; intros k; [reflexivity|].
    rewrite !imap_cons. cbn [map]. f_equal.
    transitivity
      (map row_of_way_node
         (imap (fun i nd => MkWayNode id (attr (str "ref") nd) (S k + i)) l)).
    - f_equal. apply imap_ext. intros i y _. cbn. rewrite Nat.add_succ_r.
      reflexivity.
    - rewrite IH. apply imap_ext. intros i y _. cbn. rewrite Nat.add_succ_r.
      reflexivity. }
  exact (G 0).
Qed.

Lemma process_element_way_example :
  well_formed_way example_way
  /\ exists sh,
       extract_element example_way (str "regular") = Ok (Some sh)
       /\ forall validator validate t,
            (validate = true -> validator sh = true) ->
            process_element validator validate t example_way =
            Ok (MkTables (nodes_file t) (nodes_tags_file t)
                  (ways_file t ++ [attribute_row WAY_FIELDS example_way])
                  (way_nodes_file t ++
                   imap (fun i nd => [CStr (attr (str "id") example_way);
                                      CStr (attr (str "ref") nd); CInt i])
                     (nd_children example_way))
                  (way_tags_file t ++ map row_of_tag (shaped_tags sh))).
Proof.
  split; [exact example_way_well_formed|].
  exact (process_element_way example_way example_way_well_formed).
Defined.

Lemma files_grow_refl t : files_grow t t.
Proof. unfold files_grow. repeat split; reflexivity. Qed.

Lemma files_grow_trans t1 t2 t3 :
  files_grow t1 t2 -> files_grow t2 t3 -> files_grow t1 t3.
Proof.
  unfold files_grow. intros (A1 & A2 & A3 & A4 & A5) (B1 & B2 & B3 & B4 & B5).
  repeat split; etransitivity; eassumption.
Qed.

Lemma process_element_grows validator validate t e t' :
  process_element validator validate t e = Ok t' -> files_grow t t'.
Proof.
  unfold process_element.
  destruct (extract_element e (str "regular")) as [[sh|]|]; cbn [bind];
    [| intros H; injection H as <-; apply files_grow_refl | discriminate].
  destruct (if validate then validate_element validator sh else Ok tt);
    cbn [bind]; [|discriminate].
  destruct (pystr_eqb (tag e) (str "node")).
  - destruct sh as [r|r]; [|discriminate].
    destruct (writerow_dict NODE_FIELDS (node r)); cbn [bind]; [|discriminate].
    intros H. injection H as <-. unfold files_grow. cbn.
    repeat split; try reflexivity; apply prefix_app_r; reflexivity.
  - destruct (pystr_eqb (tag e) (str "way")).
    + destruct sh as [r|r]; [discriminate|].
      destruct (writerow_dict WAY_FIELDS (way r)); cbn [bind]; [|discriminate].
      intros H. injection H as <-. unfold files_grow. cbn.
      repeat split; try reflexivity; apply prefix_app_r; reflexivity.
    + intros H. injection H as <-. apply files_grow_refl.
Qed.

Lemma process_loop_grows validator validate l : forall t,
  files_grow t (fst (process_loop validator validate t l)).
Proof.
  induction l as [|e l IH]; intros t; cbn [process_loop].
  - apply files_grow_refl.
  - destruct (process_element validator validate t e) as [t'|err] eqn:E.
    + eapply files_grow_trans; [|apply IH].
      eapply process_element_grows. exact E.
    + apply files_grow_refl.
Qed.

(** X13.  The driver only adds rows at the end of the files; whatever the
    events and the validator, and whether the run ends well or with an
    error, every file starts with its header row. *)
Theorem process_map_keeps_headers (validator : Shaped -> bool)
    (file_in : list (event * Element)) (validate : bool) :
  (forall t elements,
     files_grow t (fst (process_loop validator validate t elements)))
  /\ [header NODE_FIELDS] `prefix_of`
       nodes_file (fst (process_map validator file_in validate))
  /\ [header NODE_TAGS_FIELDS] `prefix_of`
       nodes_tags_file (fst (process_map validator file_in validate))
  /\ [header WAY_FIELDS] `prefix_of`
       ways_file (fst (process_map validator file_in validate))
  /\ [header WAY_NODES_FIELDS] `prefix_of`
       way_nodes_file (fst (process_map validator file_in validate))
  /\ [header WAY_TAGS_FIELDS] `prefix_of`
       way_tags_file (fst (process_map validator file_in validate)).
Proof.
  split; [intros t elements; apply process_loop_grows|].
  assert (G : files_grow headers (fst (process_map validator file_in validate))).
  { unfold process_map.
    destruct (get_element file_in [str "node"; str "way"]) as [els|err].
    - apply process_loop_grows.
    - apply files_grow_refl. }
  exact G.
Qed.

(** X14.  The run stops at the first element that fails: the elements
    after it are not processed, and the files are as the elements before
    it left them. *)
Theorem process_loop_stops (validator : Shaped -> bool) (validate : bool)
    (t t1 : Tables) (before after : list Element) (e : Element) (err : error) :
  process_loop validator validate t before = (t1, None) ->
  process_element validator validate t1 e = Raise err ->
  process_loop validator validate t (before ++ e :: after) = (t1, Some err).
Proof.
  revert t. induction before as [|x before IH]; intros t H1 H2.
  - cbn [process_loop] in H1. injection H1 as ->.
    cbn [app process_loop]. rewrite H2. reflexivity.
  - cbn [app process_loop] in *.
    destruct (process_element validator validate t x) as [t'|err'];
      [|discriminate].
    apply IH; assumption.
Qed.

Lemma process_loop_stops_example :
  let t1 := fst (process_loop (fun _ => true) true headers [example_node]) in
  process_loop (fun _ => true) true headers [example_node] = (t1, None)
  /\ process_element (fun _ => true) true t1 example_no_uid
     = Raise (KeyError (str "uid"))
  /\ process_loop (fun _ => true) true headers
       ([example_node] ++ example_no_uid :: [example_way])
     = (t1, Some (KeyError (str "uid"))).
Proof.
  assert (H1 : process_loop (fun _ => true) true headers [example_node]
               = (fst (process_loop (fun _ => true) true headers [example_node]),
                  None)).
  { vm_compute. reflexivity. }
  assert (H2 : process_element (fun _ => true) true
                 (fst (process_loop (fun _ => true) true headers [example_node]))
                 example_no_uid = Raise (KeyError (str "uid"))).
  { vm_compute. reflexivity. }
  split; [exact H1|]. split; [exact H2|].
  exact (process_loop_stops (fun _ => true) true headers _ [example_node]
           [example_way] example_no_uid _ H1 H2).
Defined.

(** X15.  With validation on, an element that is extracted and that the
    validator refuses raises the validation error: none of its rows is
    written and the run ends there.  With validation off the validator is
    not asked. *)
Theorem process_element_rejected (validator : Shaped -> bool) (t : Tables)
    (e : Element) (sh : Shaped) (rest : list Element) :
  extract_element e (str "regular") = Ok (Some sh) ->
  validator sh = false ->
  process_element validator true t e = Raise ValidationError
  /\ process_loop validator true t (e :: rest) = (t, Some ValidationError)
  /\ forall other : Shaped -> bool,
       process_element validator false t e = process_element other false t e.
Proof.
  intros E V.
  assert (P : process_element validator true t e = Raise ValidationError).
  { unfold process_element. rewrite E. cbn [bind]. unfold validate_element.
    rewrite V. reflexivity. }
  split; [exact P|]. split.
  - cbn [process_loop]. rewrite P. reflexivity.
  - intros other. reflexivity.
Qed.

Lemma process_element_rejected_example :
  exists sh,
    extract_element example_node (str "regular") = Ok (Some sh)
    /\ process_element (fun _ => false) true headers example_node
       = Raise ValidationError
    /\ process_loop (fun _ => false) true headers (example_node :: [example_way])
       = (headers, Some ValidationError).
Proof.
  destruct (extract_element_ok example_node (str "regular")
              (or_introl example_node_well_formed)) as (sh & id & E & _).
  exists sh. split; [exact E|].
  destruct (process_element_rejected (fun _ => false) headers example_node sh
              [example_way] E eq_refl) as (P & Q & _).
  split; [exact P|exact Q].
Defined.

(** X16.  An element that the driver processes as a node leaves the three
    files of the ways as they are, and one processed as a way leaves the
    two files of the nodes as they are. *)
Theorem process_element_routing (validator : Shaped -> bool) (validate : bool)
    (t t' : Tables) (e : Element) :
  process_element validator validate t e = Ok t' ->
  (tag e = str "node" ->
   ways_file t' = ways_file t /\ way_nodes_file t' = way_nodes_file t
   /\ way_tags_file t' = way_tags_file t)
  /\ (tag e = str "way" ->
      nodes_file t' = nodes_file t /\ nodes_tags_file t' = nodes_tags_file t).
Proof.
  unfold process_element.
  destruct (extract_element e (str "regular")) as [[sh|]|]; cbn [bind];
    [| intros H; injection H as <-; auto | discriminate].
  destruct (if validate then validate_element validator sh else Ok tt);
    cbn [bind]; [|discriminate].
  destruct (pystr_eqb (tag e) (str "node")) eqn:N.
  - destruct sh as [r|r]; [|discriminate].
    destruct (writerow_dict NODE_FIELDS (node r)); cbn [bind]; [|discriminate].
    intros H. injection H as <-. cbn. split; [auto|].
    intros W. apply pystr_eqb_eq in N. rewrite W in N. discriminate.
  - destruct (pystr_eqb (tag e) (str "way")).
    + destruct sh as [r|r]; [discriminate|].
      destruct (writerow_dict WAY_FIELDS (way r)); cbn [bind]; [|discriminate].
      intros H. injection H as <-. cbn. split; [|auto].
      intros W. rewrite W, pystr_eqb_refl in N. discriminate.
    + intros H. injection H as <-. auto.
Qed.

Lemma process_element_routing_example :
  let t' := fst (process_loop (fun _ => true) true headers [example_node]) in
  process_element (fun _ => true) true headers example_node = Ok t'
  /\ ways_file t' = ways_file headers
  /\ way_nodes_file t' = way_nodes_file headers
  /\ way_tags_file t' = way_tags_file headers.
Proof.
  assert (P : process_element (fun _ => true) true headers example_node
              = Ok (fst (process_loop (fun _ => true) true headers [example_node]))).
  { vm_compute. reflexivity. }
  split; [exact P|].
  exact (proj1 (process_element_routing (fun _ => true) true headers _
                  example_node P) eq_refl).
Defined.
